(** * Landmark Explorer: the cache store, the upstream clients and the
    two query routes of [server/], embedded in Rocq.

    - [server/storage.ts]      -> Module [Storage]
    - [server/api/wikipedia.ts] -> Module [Wikipedia]
    - [server/routes.ts]        -> Module [Routes]
    - [client/src/hooks/use-bookmarks.ts] -> Module [Bookmarks]
    - [client/src/components/MapStyleSelector.tsx] -> Module [MapStyles]
    - the title filters of [Home.tsx] and [BookmarksPanel.tsx] -> Module [TitleFilter]

    JavaScript numbers are IEEE 754 binary64 values, so coordinates are
    primitive floats.  Clock readings ([Date.now()]) are integral numbers
    of milliseconds and are kept in [Z]; an expiry time handed to the store
    is any number of [Storage.number]: NaN, an infinity or an integral
    number of milliseconds.  Strings are sequences of code units below
    256. *)

From Stdlib Require Import ZArith Lia List Bool.
From Stdlib Require Import Floats.PrimFloat Floats.SpecFloat Floats.FloatOps Floats.FloatAxioms.
From Stdlib Require Import Strings.String Strings.Ascii.
From Stdlib Require Import Numbers.DecimalString Numbers.DecimalZ Numbers.DecimalPos.
From Stdlib Require Import Numbers.DecimalN Numbers.DecimalFacts.
From stdpp Require Import gmap strings.

Local Open Scope Z_scope.

(** ** The parts of the JavaScript engine the server relies on *)

(** Functions of the engine whose results ECMA-262 leaves to the
    implementation ([Math.sin] ...), or whose full definition is outside
    this development ([Number::toString] on finite floats, [parseFloat]). *)
Record Runtime := {
  Math_sin : float -> float;
  Math_cos : float -> float;
  Math_atan2 : float -> float -> float;
  Math_sqrt : float -> float;
  Number_toString : float -> string;
  parseFloat : string -> float
}.

Module JsNumber.

(** [Math.PI], the binary64 value closest to pi. *)
Definition Math_PI : float := 0x1.921fb54442d18p+1%float.

(** [Math.max(a, b)]: NaN if either argument is NaN; [+0] is larger than
    [-0]. *)
Definition Math_max (a b : float) : float :=
  if is_nan a || is_nan b then nan
  else if (a <? b)%float then b
  else if (b <? a)%float then a
  else if get_sign a then b else a.

(** [Math.min(a, b)]: NaN if either argument is NaN; [-0] is smaller than
    [+0]. *)
Definition Math_min (a b : float) : float :=
  if is_nan a || is_nan b then nan
  else if (a <? b)%float then a
  else if (b <? a)%float then b
  else if get_sign a then a else b.

(** Steps 7-11 of [Number.prototype.toFixed(f)] (ECMA-262, 21.1.3.3) on a
    finite [x] below [10^21]: the sign flag ([x < 0] as a real number, so
    false for both zeros) and the integer [n] for which [n / 10^f - |x|] is
    as close to zero as possible, the larger one on a tie.  With
    [|x| = m * 2^e] that is [floor (|x| * 10^f + 1/2)].  [None] when [x] is
    not finite or [|x| >= 10^21]. *)
Definition toFixed_parts (f : nat) (x : float) : option (bool * Z) :=
  match Prim2SF x with
  | S754_zero _ => Some (false, 0)
  | S754_finite s m e =>
      let a := Z.pos m * 2 ^ Z.max e 0 in
      let b := 2 ^ Z.max (- e) 0 in
      if 10 ^ 21 * b <=? a then None
      else Some (s, (2 * a * 10 ^ Z.of_nat f + b) / (2 * b))
  | S754_infinity _ | S754_nan => None
  end.

(** The decimal digits of [n >= 0], "0" for zero. *)
Definition digits (n : Z) : string :=
  NilZero.string_of_uint (N.to_uint (Z.to_N n)).

Fixpoint zeros (k : nat) : string :=
  match k with
  | O => EmptyString
  | S k' => String "0" (zeros k')
  end.

(** Step 11.c-e of [toFixed]: pad the digits of [n] with zeros up to
    [f + 1] characters and put the point before the last [f]. *)
Definition fixed_digits (f : nat) (n : Z) : string :=
  let m := digits n in
  if Nat.eqb f 0 then m
  else
    let k := String.length m in
    let m' := if Nat.leb k f then (zeros (f + 1 - k) ++ m)%string else m in
    let k' := Nat.max k (f + 1) in
    (substring 0 (k' - f) m' ++ "." ++ substring (k' - f) f m')%string.

(** [x.toFixed(f)].  Non-finite values and values of magnitude [10^21] or
    more are printed by [Number::toString]. *)
Definition toFixed (rt : Runtime) (f : nat) (x : float) : string :=
  match toFixed_parts f x with
  | Some (s, n) => ((if s then "-" else "") ++ fixed_digits f n)%string
  | None => Number_toString rt x
  end.

(** The number [toFixed] rounds [x] to, in units of [10^-f]: the sign
    applied to the rounded magnitude.  Undefined where [toFixed] does not
    round. *)
Definition rounded_value (f : nat) (x : float) : option Z :=
  match toFixed_parts f x with
  | Some (s, n) => Some (if s then - n else n)
  | None => None
  end.

(** [x < 0] on the value of a float: the sign bit of a non-zero number
    (false for NaN and both zeros). *)
Definition is_negative (x : float) : bool :=
  match Prim2SF x with
  | S754_finite s _ _ | S754_infinity s => s
  | S754_zero _ | S754_nan => false
  end.

(** Two numbers round alike when [toFixed] rounds both to the same value
    and, where that value is zero, both are negative or neither is. *)
Definition same_rounding (f : nat) (x y : float) : Prop :=
  exists v, rounded_value f x = Some v /\ rounded_value f y = Some v
            /\ (v = 0 -> is_negative x = is_negative y).

End JsNumber.

(** ** [server/routes.ts]: bounds and the cache key *)

Record BoundingBox := {
  north : float;
  south : float;
  east : float;
  west : float
}.

(** [boundsSchema]: [z.number().min(lo).max(hi)] on each field; zod's
    [z.number()] refuses NaN, and so does each comparison. *)
Definition in_range (lo hi x : float) : bool :=
  (lo <=? x)%float && (x <=? hi)%float.

Definition boundsSchema (b : BoundingBox) : bool :=
  in_range (-90) 90 (north b) && in_range (-90) 90 (south b)
  && in_range (-180) 180 (east b) && in_range (-180) 180 (west b).

(** The template literal of [registerRoutes] that names a cache entry. *)
Definition cacheKey (rt : Runtime) (b : BoundingBox) : string :=
  ("landmarks_" ++ JsNumber.toFixed rt 4 (north b)
   ++ "_" ++ JsNumber.toFixed rt 4 (south b)
   ++ "_" ++ JsNumber.toFixed rt 4 (east b)
   ++ "_" ++ JsNumber.toFixed rt 4 (west b))%string.

(** A bounding box as the data model wants it: in range, north not below
    south, east not below west. *)
Definition valid_box (b : BoundingBox) : Prop :=
  boundsSchema b = true
  /\ (south b <=? north b)%float = true
  /\ (west b <=? east b)%float = true.

(** A thrown JavaScript exception: [new Error(message)], an error raised
    by axios (network failure, bad status), or zod's [ZodError]. *)
Inductive Exception :=
| Error (message : string)
| AxiosError (message : string)
| ZodError.

(** ** [server/storage.ts] *)

Module Storage.

(** The JavaScript numbers an expiry time can be: NaN, the two
    infinities, and the integral numbers of milliseconds ([Date.now()] and
    what adding whole durations to it gives; of magnitude below [10^21],
    where [toString] writes plain decimal digits).  The two zeros, which
    compare equal and print alike, are both [Int 0].  Expiry times with a
    fraction, or of magnitude [10^21] and more, are outside this type. *)
Inductive number :=
| NaN
| Infinity (negative : bool)
| Int (z : Z).

(** [x <= Date.now()] for a clock reading [now]; false when [x] is NaN. *)
Definition le_now (x : number) (now : Z) : bool :=
  match x with
  | NaN => false
  | Infinity negative => negative
  | Int z => z <=? now
  end.

(** [x < Date.now()] for a clock reading [now]; false when [x] is NaN. *)
Definition lt_now (x : number) (now : Z) : bool :=
  match x with
  | NaN => false
  | Infinity negative => negative
  | Int z => z <? now
  end.

(** [expiryTime.toString()]. *)
Definition toString (t : number) : string :=
  match t with
  | NaN => "NaN"
  | Infinity false => "Infinity"
  | Infinity true => "-Infinity"
  | Int z => NilZero.string_of_int (Z.to_int z)
  end.

(** [Number(s)] on the strings the store holds, those written by
    [toString]: the two infinities and decimal numerals; any other string,
    "NaN" among them, is read as NaN. *)
Definition Number (s : string) : number :=
  if String.eqb s "Infinity" then Infinity false
  else if String.eqb s "-Infinity" then Infinity true
  else match NilZero.int_of_string s with
       | Some d => Int (Z.of_int d)
       | None => NaN
       end.

(** [Number(s) < now], false when the left side is NaN. *)
Definition Number_lt (s : string) (now : Z) : bool := lt_now (Number s) now.

Section Store.

(** The payload type ([any] in the source). *)
Context {V : Type}.

(** A row of the [caches] table ([Cache] of [shared/schema]); [expires]
    is a numeric column, a string on the TypeScript side. *)
Record Cache := {
  id : Z;
  key : string;
  value : V;
  expires : string
}.

(** [MemStorage.cache : Map<string, Cache>]. *)
Abbreviation Store := (gmap string Cache).

(** [getCachedData(key)] with [Date.now() = now]: the returned value
    ([None] for [null]) and the map afterwards. *)
Definition getCachedData (now : Z) (k : string) (cache : Store)
  : option V * Store :=
  match cache !! k with
  | None => (None, cache)
  | Some cacheEntry =>
      if Number_lt (expires cacheEntry) now
      then (None, delete k cache)
      else (Some (value cacheEntry), cache)
  end.

(** [cacheData(key, value, expiryTime)] with [Date.now() = now]: throws
    before touching the map when [expiryTime <= Date.now()].  The test
    is false for NaN, so a NaN expiry is stored. *)
Definition cacheData (now : Z) (k : string) (v : V) (expiryTime : number)
  (cache : Store) : (Exception + unit) * Store :=
  if le_now expiryTime now
  then (inl (Error "Expiry time must be a future timestamp."), cache)
  else
    let cacheEntry :=
      {| id := Z.of_nat (size cache) + 1; key := k; value := v;
         expires := toString expiryTime |} in
    (inr tt, <[k := cacheEntry]> cache).

(** One iteration of the [forEach] of [clearExpiredCache]: the map and
    [expiredCount]. *)
Definition sweep_step (now : Z) (acc : Store * Z) (ke : string * Cache)
  : Store * Z :=
  if Number_lt (expires ke.2) now
  then (delete ke.1 acc.1, acc.2 + 1)
  else acc.

(** [clearExpiredCache()] with [Date.now() = now]: the entries are
    snapshot ([Array.from(this.cache.entries())]) and the expired ones
    deleted one by one. *)
Definition clearExpiredCache_count (now : Z) (cache : Store) : Store * Z :=
  foldl (sweep_step now) (cache, 0) (map_to_list cache).

Definition clearExpiredCache (now : Z) (cache : Store) : Store :=
  (clearExpiredCache_count now cache).1.

(** The operations a store goes through, each at its own clock reading. *)
Inductive step : Store -> Store -> Prop :=
| step_get now k s : step s (getCachedData now k s).2
| step_put now k v t s : step s (cacheData now k v t s).2
| step_sweep now s : step s (clearExpiredCache now s).

(** The stores a [MemStorage] can hold: it starts empty
    ([new Map()]). *)
Inductive reachable : Store -> Prop :=
| reachable_new : reachable ∅
| reachable_step s s' : reachable s -> step s s' -> reachable s'.

(** Every entry of a store was written by [cacheData]: its key is the one
    it is filed under and its expiry is a printed number. *)
Definition well_formed (s : Store) : Prop :=
  forall k e, s !! k = Some e -> key e = k /\ exists t, expires e = toString t.

End Store.

Arguments Cache : clear implicits.

End Storage.
(** ** [client/src/types]: the records exchanged with Wikipedia *)

Record Fact := { fact_type : string; fact_label : string; fact_value : string }.

(** [Landmark]; optional properties are options. *)
Record Landmark := {
  pageid : Z;
  title : string;
  lat : float;
  lon : float;
  description : option string;
  thumbnail : option string;
  address : option string;
  distance : option float;
  isBookmarked : option bool;
  facts : option (list Fact)
}.

Record WikiGeosearchResult := {
  geo_pageid : Z;
  geo_ns : Z;
  geo_title : string;
  geo_lat : float;
  geo_lon : float;
  geo_dist : float;
  geo_primary : string
}.

Record Thumbnail := { source : string; width : Z; height : Z }.

Record WikiLandmarkDetails := {
  det_pageid : Z;
  det_title : string;
  extract : option string;
  det_thumbnail : option Thumbnail
}.

(** What the handlers read of the other upstream payloads. *)
Record SearchHit := { hit_pageid : Z; hit_title : string }.
Record Coordinate := { coord_lat : float; coord_lon : float }.
Record CoordinatesPage := { page_title : string; coordinates : list Coordinate }.
Record Place := { place_lat : string; place_lon : string; display_name : string }.

(** ** Requests to the upstream services and the server's state *)

(** The [axios.get] requests the server issues, with the parameters that
    vary. *)
Inductive Call :=
| Geosearch (gscoord_lat gscoord_lon gsradius : float) (gslimit : Z)
| PageDetails (pageids : Z)
| Search (srsearch : string) (srlimit : Z)
| Coordinates (pageids : Z)
| Nominatim (q : string) (limit : Z).

(** The world outside the process.  Each upstream answer may depend on the
    requests issued before it; [inl] is a rejected [axios.get], [inr] the
    part of [response.data] the caller reads through its optional chain
    ([None] when the chain ends in a falsy value).  [clock n] is the
    [n]-th reading of [Date.now()]. *)
Record World := {
  geosearch_api : list Call -> float -> float -> float ->
                  Exception + option (list WikiGeosearchResult);
  details_api : list Call -> Z -> Exception + option WikiLandmarkDetails;
  search_api : list Call -> string -> Exception + option (list SearchHit);
  coordinates_api : list Call -> Z -> Exception + option CoordinatesPage;
  nominatim_api : list Call -> string -> Exception + option (list Place);
  clock : nat -> Z
}.

(** The mutable state a request handler runs against: the [storage]
    singleton, the upstream requests issued so far (oldest first) and the
    number of clock readings taken. *)
Record ServerState := {
  storage : gmap string (Storage.Cache (list Landmark));
  calls : list Call;
  ticks : nat
}.

(** Computations that may throw and that update the server state; the
    state survives a throw. *)
Definition M (A : Type) : Type :=
  ServerState -> (Exception + A) * ServerState.

#[export] Instance M_ret : MRet M := fun A x st => (inr x, st).

#[export] Instance M_bind : MBind M := fun A B f c st =>
  match c st with
  | (inr x, st') => f x st'
  | (inl e, st') => (inl e, st')
  end.

Definition throw {A} (e : Exception) : M A := fun st => (inl e, st).

(** [try { c } catch (error) { h error }]. *)
Definition try_catch {A} (c : M A) (h : Exception -> M A) : M A :=
  fun st =>
    match c st with
    | (inl e, st') => h e st'
    | r => r
    end.

(** [await axios.get(...)]: the request is recorded, and the world
    answers from the requests that came before. *)
Definition axios_get {A} (c : Call)
  (answer : list Call -> Exception + A) : M A :=
  fun st =>
    (answer (calls st),
     {| storage := storage st; calls := calls st ++ [c]; ticks := ticks st |}).

(** The requests issued between two states of one run. *)
Definition issued (st st' : ServerState) : list Call :=
  drop (length (calls st)) (calls st').

(** Requests to the secondary place search (Nominatim). *)
Definition is_secondary (c : Call) : bool :=
  match c with
  | Nominatim _ _ => true
  | _ => false
  end.

Section Server.

Context (rt : Runtime) (w : World).

(** [Date.now()]. *)
Definition Date_now : M Z := fun st =>
  (inr (clock w (ticks st)),
   {| storage := storage st; calls := calls st; ticks := S (ticks st) |}).

(** [storage.getCachedData(key)]; the clock is read only when the key is
    present. *)
Definition storage_getCachedData (k : string) : M (option (list Landmark)) :=
  fun st =>
    match storage st !! k with
    | None => (inr None, st)
    | Some _ =>
        let r := Storage.getCachedData (clock w (ticks st)) k (storage st) in
        (inr r.1, {| storage := r.2; calls := calls st; ticks := S (ticks st) |})
    end.

(** [storage.cacheData(key, value, expiryTime)] as the route calls it,
    with an integral [expiryTime] ([Date.now() + CACHE_EXPIRY_TIME]). *)
Definition storage_cacheData (k : string) (v : list Landmark) (expiryTime : Z)
  : M unit :=
  fun st =>
    let r := Storage.cacheData (clock w (ticks st)) k v (Storage.Int expiryTime)
               (storage st) in
    (r.1, {| storage := r.2; calls := calls st; ticks := S (ticks st) |}).

End Server.

(** ** [server/api/wikipedia.ts] *)

Module Wikipedia.

Import JsNumber.

Definition MAX_RADIUS : float := 10000%float.

(** [String.prototype.trim]: white space and line terminators among the
    code units below 256 (TAB, LF, VT, FF, CR, SP, NBSP). *)
Definition is_whitespace (c : ascii) : bool :=
  match nat_of_ascii c with
  | 9%nat | 10%nat | 11%nat | 12%nat | 13%nat | 32%nat | 160%nat => true
  | _ => false
  end.

Fixpoint trimStart (s : string) : string :=
  match s with
  | EmptyString => EmptyString
  | String c s' => if is_whitespace c then trimStart s' else s
  end.

Fixpoint trimEnd (s : string) : string :=
  match s with
  | EmptyString => EmptyString
  | String c s' =>
      match trimEnd s' with
      | EmptyString => if is_whitespace c then EmptyString else String c EmptyString
      | t => String c t
      end
  end.

Definition trim (s : string) : string := trimEnd (trimStart s).

(** A string made of white space only. *)
Fixpoint blank (s : string) : bool :=
  match s with
  | EmptyString => true
  | String c s' => is_whitespace c && blank s'
  end.

Section Client.

Context (rt : Runtime) (w : World).

Definition deg2rad (deg : float) : float := (deg * (Math_PI / 180))%float.

(** Distance in km between two coordinates by the Haversine formula. *)
Definition haversineDistance (lat1 lon1 lat2 lon2 : float) : float :=
  let R := 6371%float in
  let dLat := deg2rad (lat2 - lat1) in
  let dLon := deg2rad (lon2 - lon1) in
  let a :=
    (Math_sin rt (dLat / 2) * Math_sin rt (dLat / 2) +
     Math_cos rt (deg2rad lat1) * Math_cos rt (deg2rad lat2)
     * Math_sin rt (dLon / 2) * Math_sin rt (dLon / 2))%float in
  let c := (2 * Math_atan2 rt (Math_sqrt rt a) (Math_sqrt rt (1 - a)))%float in
  (R * c)%float.

(** [fetchLandmarks(north, south, east, west)].  The outer [catch] logs
    and rethrows, so it leaves the outcome as it is. *)
Definition fetchLandmarks (north south east west : float) : M (list Landmark) :=
  if (north <? south)%float || (east <? west)%float
  then throw (Error "Invalid map bounds provided.")
  else
    let centerLat := ((north + south) / 2)%float in
    let centerLon := ((east + west) / 2)%float in
    let radius :=
      Math_min
        (Math_max (haversineDistance centerLat centerLon north centerLon)
                  (haversineDistance centerLat centerLon centerLat east)
         * 1000)%float
        MAX_RADIUS in
    data ← axios_get (Geosearch centerLat centerLon radius 50)
             (fun h => geosearch_api w h centerLat centerLon radius);
    match data with
    | Some results =>
        mret (map (fun result =>
                     {| pageid := geo_pageid result;
                        title := geo_title result;
                        lat := geo_lat result;
                        lon := geo_lon result;
                        description := None;
                        thumbnail := None;
                        address := None;
                        distance := Some (geo_dist result / 1000)%float;
                        isBookmarked := None;
                        facts := None |}) results)
    | None => mret []
    end.

(** [fetchLandmarkDetails(pageId)]. *)
Definition fetchLandmarkDetails (pageId : Z) : M WikiLandmarkDetails :=
  data ← axios_get (PageDetails pageId) (fun h => details_api w h pageId);
  match data with
  | Some page =>
      mret {| det_pageid := det_pageid page; det_title := det_title page;
              extract := extract page; det_thumbnail := det_thumbnail page |}
  | None =>
      mret {| det_pageid := pageId; det_title := ""; extract := None;
              det_thumbnail := None |}
  end.

(** [searchWikipedia(query)]. *)
Definition searchWikipedia (query : string) : M (list WikiGeosearchResult) :=
  if String.eqb query "" || Nat.eqb (String.length (trim query)) 0
  then throw (Error "Search query cannot be empty.")
  else
    found ← axios_get (Search query 5) (fun h => search_api w h query);
    match found with
    | None | Some [] => mret []
    | Some (first :: _) =>
        let pageId := hit_pageid first in
        geo ← axios_get (Coordinates pageId) (fun h => coordinates_api w h pageId);
        match geo with
        | Some page =>
            match coordinates page with
            | coords :: _ =>
                mret [ {| geo_pageid := pageId; geo_ns := 0;
                          geo_title := page_title page;
                          geo_lat := coord_lat coords;
                          geo_lon := coord_lon coords;
                          geo_dist := 0%float; geo_primary := "true" |} ]
            | [] => mret []
            end
        | None => mret []
        end
    end.

End Client.

End Wikipedia.

(** ** The distance and the radius as the specification words them

    These definitions do not come from the source: they write out section
    4.1 and 4.2 of the specification on binary64 numbers, for comparison
    with [Wikipedia.haversineDistance] and with the radius that
    [Wikipedia.fetchLandmarks] asks for. *)

Module GeoSpec.

(** Degrees to radians, with pi rounded to binary64. *)
Definition radians (deg : float) : float :=
  (deg * (0x1.921fb54442d18p+1 / 180))%float.

(** [a = sin²(Δlat/2) + cos(lat1)·cos(lat2)·sin²(Δlon/2)],
    [c = 2·atan2(√a, √(1-a))], [d = R·c] with [R] = 6371 km, on
    coordinates in degrees; products are taken from left to right. *)
Definition haversine_km (rt : Runtime) (lat1 lon1 lat2 lon2 : float) : float :=
  let half_dlat := (radians (lat2 - lat1) / 2)%float in
  let half_dlon := (radians (lon2 - lon1) / 2)%float in
  let a :=
    (Math_sin rt half_dlat * Math_sin rt half_dlat
     + Math_cos rt (radians lat1) * Math_cos rt (radians lat2)
       * Math_sin rt half_dlon * Math_sin rt half_dlon)%float in
  (6371 * (2 * Math_atan2 rt (Math_sqrt rt a) (Math_sqrt rt (1 - a))))%float.

(** [m] is the maximum of [a] and [b]: one of the two and not below
    either, by the comparison of binary64 (which takes the two zeros for
    equal); NaN when either is NaN. *)
Definition is_max (a b m : float) : Prop :=
  if is_nan a || is_nan b then m = nan
  else (m = a \/ m = b) /\ (a <=? m)%float = true /\ (b <=? m)%float = true.

(** [m] is the minimum of [a] and [b]. *)
Definition is_min (a b m : float) : Prop :=
  if is_nan a || is_nan b then m = nan
  else (m = a \/ m = b) /\ (m <=? a)%float = true /\ (m <=? b)%float = true.

(** The search radius in metres for the distances in km from the centre
    to the north edge and to the east edge: the larger of the two, times
    1000, capped at 10,000. *)
Definition capped_radius (d_north d_east radius : float) : Prop :=
  exists m, is_max d_north d_east m /\ is_min (m * 1000)%float 10000%float radius.

End GeoSpec.

(** ** [server/routes.ts] *)

Module Routes.

Import Wikipedia.

(** 15 minutes, in milliseconds. *)
Definition CACHE_EXPIRY_TIME : Z := 1000 * 60 * 15.

Inductive Body :=
| LandmarkList (landmarks : list Landmark)
| GeocodeResult (lat lon : float) (display_name : string)
| Message (message : string).

Record HttpResponse := { status : Z; body : Body }.

(** [res.json(b)], status 200 unless [res.status(c)] came first. *)
Definition json (c : Z) (b : Body) : HttpResponse := {| status := c; body := b |}.

(** [querySchema]: [q] must be a string of at least one code unit;
    [None] stands for a parameter that is missing or not a string. *)
Definition querySchema (q : option string) : M string :=
  match q with
  | Some s => if Nat.leb 1 (String.length s) then mret s else throw ZodError
  | None => throw ZodError
  end.

(** [Promise.all(items.map(f))] for an [f] that starts its request before
    its first [await]: the requests go out in list order. *)
Fixpoint Promise_all {A B} (f : A -> M B) (items : list A) : M (list B) :=
  match items with
  | [] => mret []
  | x :: rest =>
      y ← f x;
      ys ← Promise_all f rest;
      mret (y :: ys)
  end.

Section Handlers.

Context (rt : Runtime) (w : World).

(** The callback handed to [landmarks.map]: a landmark with its details,
    or the landmark as it is when the detail request throws. *)
Definition with_details (landmark : Landmark) : M Landmark :=
  try_catch
    (details ← fetchLandmarkDetails w (pageid landmark);
     mret {| pageid := pageid landmark;
             title := title landmark;
             lat := lat landmark;
             lon := lon landmark;
             description := extract details;
             thumbnail := source <$> det_thumbnail details;
             address := address landmark;
             distance := distance landmark;
             isBookmarked := isBookmarked landmark;
             facts := facts landmark |})
    (fun _ => mret landmark).

(** The body of the [try] of [GET /api/landmarks]; the argument holds the
    four query parameters after [parseFloat]. *)
Definition landmarks_try (query : BoundingBox) : M HttpResponse :=
  if negb (boundsSchema query) then throw ZodError
  else
    let cacheKey := cacheKey rt query in
    cachedLandmarks ← storage_getCachedData w cacheKey;
    match cachedLandmarks with
    | Some cached => mret (json 200 (LandmarkList cached))
    | None =>
        landmarks ← fetchLandmarks rt w (north query) (south query)
                                        (east query) (west query);
        landmarksWithDetails ← Promise_all with_details landmarks;
        now ← Date_now w;
        _ ← storage_cacheData w cacheKey landmarksWithDetails
              (now + CACHE_EXPIRY_TIME);
        mret (json 200 (LandmarkList landmarksWithDetails))
    end.

(** [GET /api/landmarks]. *)
Definition get_landmarks (query : BoundingBox) (st : ServerState)
  : HttpResponse * ServerState :=
  match landmarks_try query st with
  | (inr res, st') => (res, st')
  | (inl _, st') => (json 500 (Message "Failed to fetch landmarks"), st')
  end.

(** The inner [try] of [GET /api/geocode]: the answer built from the
    first Wikipedia match, if there is one; a throw falls through. *)
Definition geocode_wikipedia (q : string) : M (option HttpResponse) :=
  try_catch
    (wikiResults ← searchWikipedia w q;
     match wikiResults with
     | first :: _ =>
         mret (Some (json 200 (GeocodeResult (geo_lat first) (geo_lon first)
                                             (geo_title first))))
     | [] => mret None
     end)
    (fun _ => mret None).

(** The body of the outer [try] of [GET /api/geocode]. *)
Definition geocode_try (query : option string) : M HttpResponse :=
  q ← querySchema query;
  answered ← geocode_wikipedia q;
  match answered with
  | Some res => mret res
  | None =>
      data ← axios_get (Nominatim q 1) (fun h => nominatim_api w h q);
      match data with
      | Some (location :: _) =>
          mret (json 200 (GeocodeResult (parseFloat rt (place_lat location))
                                        (parseFloat rt (place_lon location))
                                        (display_name location)))
      | Some [] | None => mret (json 404 (Message "Location not found"))
      end
  end.

(** [GET /api/geocode]. *)
Definition get_geocode (query : option string) (st : ServerState)
  : HttpResponse * ServerState :=
  match geocode_try query st with
  | (inr res, st') => (res, st')
  | (inl _, st') => (json 500 (Message "Failed to geocode location"), st')
  end.

End Handlers.

End Routes.

(** ** [client/src/hooks/use-bookmarks.ts] *)

Module Bookmarks.

(** [{ ...landmark, isBookmarked: true }]. *)
Definition marked (landmark : Landmark) : Landmark :=
  {| pageid := pageid landmark;
     title := title landmark;
     lat := lat landmark;
     lon := lon landmark;
     description := description landmark;
     thumbnail := thumbnail landmark;
     address := address landmark;
     distance := distance landmark;
     isBookmarked := Some true;
     facts := facts landmark |}.

(** [isBookmarked(landmarkId)], over the [bookmarks] of the render the
    function was created in. *)
Definition isBookmarked (bookmarks : list Landmark) (landmarkId : Z) : bool :=
  existsb (fun bookmark => pageid bookmark =? landmarkId) bookmarks.

(** [addBookmark(landmark)]: the state update it requests.  The test
    reads the [bookmarks] of the render; the update is applied to the
    state [prev] React holds when it runs it. *)
Definition addBookmark (bookmarks : list Landmark) (landmark : Landmark)
  (prev : list Landmark) : list Landmark :=
  if negb (isBookmarked bookmarks (pageid landmark))
  then prev ++ [marked landmark]
  else prev.

(** [removeBookmark(landmarkId)]. *)
Definition removeBookmark (landmarkId : Z) (prev : list Landmark) : list Landmark :=
  List.filter (fun bookmark => negb (pageid bookmark =? landmarkId)) prev.

(** [toggleBookmark(landmark)]. *)
Definition toggleBookmark (bookmarks : list Landmark) (landmark : Landmark)
  (prev : list Landmark) : list Landmark :=
  if isBookmarked bookmarks (pageid landmark)
  then removeBookmark (pageid landmark) prev
  else addBookmark bookmarks landmark prev.

End Bookmarks.

(** ** [client/src/components/MapStyleSelector.tsx] and the [useMapStyle] hook *)

Module MapStyles.

Record MapStyle := { style_id : string; name : string; url : string }.

Definition MAP_STYLES : list MapStyle := [
  {| style_id := "streets"; name := "Streets";
     url := "https://{s}.tile.openstreetmap.org/{z}/{x}/{y}.png" |};
  {| style_id := "topo"; name := "Topography";
     url := "https://{s}.tile.opentopomap.org/{z}/{x}/{y}.png" |};
  {| style_id := "satellite"; name := "Satellite";
     url := "https://server.arcgisonline.com/ArcGIS/rest/services/World_Imagery/MapServer/tile/{z}/{y}/{x}" |};
  {| style_id := "dark"; name := "Dark Mode";
     url := "https://tiles.stadiamaps.com/tiles/alidade_smooth_dark/{z}/{x}/{y}{r}.png" |};
  {| style_id := "watercolor"; name := "Watercolor";
     url := "https://stamen-tiles-{s}.a.ssl.fastly.net/watercolor/{z}/{x}/{y}.jpg" |}
]%string.

(** [MAP_STYLES.find(style => style.id === selectedStyleId) || MAP_STYLES[0]];
    [None] stands for [undefined]. *)
Definition selectedStyle (selectedStyleId : string) : option MapStyle :=
  match List.find (fun style => String.eqb (style_id style) selectedStyleId) MAP_STYLES with
  | Some style => Some style
  | None => MAP_STYLES !! 0%nat
  end.

End MapStyles.

(** ** [client/src/pages/Home.tsx] and [BookmarksPanel.tsx]: the title filter *)

Module TitleFilter.

(** [String.prototype.toLowerCase] on code units below 256: the letters
    A-Z and the Latin-1 capitals (192-222 but for the multiplication sign
    215) move up by 32. *)
Definition lower (c : ascii) : ascii :=
  let n := nat_of_ascii c in
  if (Nat.leb 65 n && Nat.leb n 90)
     || (Nat.leb 192 n && Nat.leb n 222 && negb (Nat.eqb n 215))
  then ascii_of_nat (n + 32)
  else c.

Fixpoint toLowerCase (s : string) : string :=
  match s with
  | EmptyString => EmptyString
  | String c s' => String (lower c) (toLowerCase s')
  end.

(** [s.includes(sub)]. *)
Fixpoint includes (s sub : string) : bool :=
  String.prefix sub s ||
  match s with
  | EmptyString => false
  | String _ s' => includes s' sub
  end.

(** [filteredLandmarks] of [Home], once the query has delivered a list
    ([landmarks?.filter] is undefined before that). *)
Definition filteredLandmarks (searchQuery : string) (landmarks : list Landmark)
  : list Landmark :=
  List.filter
    (fun landmark =>
       String.eqb searchQuery "" ||
       includes (toLowerCase (title landmark)) (toLowerCase searchQuery))
    landmarks.

(** [filteredBookmarks] of [BookmarksPanel]. *)
Definition filteredBookmarks (searchQuery : string) (bookmarks : list Landmark)
  : list Landmark :=
  List.filter
    (fun bookmark => includes (toLowerCase (title bookmark)) (toLowerCase searchQuery))
    bookmarks.

End TitleFilter.

(** ** The text of a cache key *)

Module KeyText.

Import JsNumber.

(** The characters ['0'] to ['9']. *)
Definition is_digit (c : ascii) : bool :=
  (Nat.leb 48 (nat_of_ascii c) && Nat.leb (nat_of_ascii c) 57)%bool.

(** All characters of a string satisfy [p]. *)
Fixpoint all_chars (p : ascii -> bool) (s : string) : bool :=
  match s with
  | EmptyString => true
  | String c s' => p c && all_chars p s'
  end.

(** The digits of [n] padded with zeros to [f + 1] characters, as in step
    11.c of [toFixed]. *)
Definition padded (f : nat) (n : Z) : string :=
  let m := digits n in
  if Nat.leb (String.length m) f then (zeros (f + 1 - String.length m) ++ m)%string else m.

(** The characters a fixed-point numeral is made of. *)
Definition key_char (c : ascii) : bool :=
  (is_digit c || Ascii.eqb c "." || Ascii.eqb c "-")%bool.

End KeyText.

(** ** Sample inputs *)

(** A runtime to evaluate examples with.  The trigonometric functions,
    [Number::toString] and [parseFloat] are placeholders: no example below
    depends on what they return. *)
Definition sample_runtime : Runtime := {|
  Math_sin := fun x => x;
  Math_cos := fun _ => 1%float;
  Math_atan2 := fun y _ => y;
  Math_sqrt := PrimFloat.sqrt;
  Number_toString := fun _ => "NaN"%string;
  parseFloat := fun _ => nan
|}.

(** Two viewports next to the equator, one just north of it and one just
    south: [2^-20] and [-2^-20] degrees both round to zero at 4 decimals. *)
Definition box_above : BoundingBox :=
  {| north := 0x1p-20%float; south := (-1)%float; east := 1%float; west := 0%float |}.
Definition box_below : BoundingBox :=
  {| north := (-0x1p-20)%float; south := (-1)%float; east := 1%float; west := 0%float |}.

(** A third one, [2^-19] degrees north of the equator. *)
Definition box_above' : BoundingBox :=
  {| north := 0x1p-19%float; south := (-1)%float; east := 1%float; west := 0%float |}.

(** A server that has just started. *)
Definition st0 : ServerState := {| storage := ∅; calls := []; ticks := 0 |}.

Definition geo_result (i : Z) (name : string) : WikiGeosearchResult :=
  {| geo_pageid := i; geo_ns := 0; geo_title := name;
     geo_lat := 51.5%float; geo_lon := (-0.125)%float;
     geo_dist := 250%float; geo_primary := "" |}.

(** A world in which the geosearch finds three pages; the detail request
    succeeds in full for page 1, is rejected for page 2, and succeeds for
    page 3 with a page that has neither extract nor thumbnail.  The text
    search knows "Eiffel Tower" only, and Nominatim knows nothing. *)
Definition sample_world : World := {|
  geosearch_api := fun _ _ _ _ =>
    inr (Some [geo_result 1 "Tower"; geo_result 2 "Bridge"; geo_result 3 "Stub"]);
  details_api := fun _ i =>
    if i =? 1 then
      inr (Some {| det_pageid := 1; det_title := "Tower";
                   extract := Some "A tower."%string;
                   det_thumbnail := Some {| source := "tower.jpg"; width := 500; height := 300 |} |})
    else if i =? 2 then inl (AxiosError "Network Error")
    else inr (Some {| det_pageid := i; det_title := "Stub"; extract := None;
                      det_thumbnail := None |});
  search_api := fun _ q =>
    if String.eqb q "Eiffel Tower"
    then inr (Some [ {| hit_pageid := 7; hit_title := "Eiffel Tower" |} ])
    else inr (Some []);
  coordinates_api := fun _ i =>
    inr (Some {| page_title := "Eiffel Tower";
                 coordinates := [ {| coord_lat := 48.875%float; coord_lon := 2.25%float |} ] |});
  nominatim_api := fun _ _ => inr (Some []);
  clock := fun n => 1700000000000 + Z.of_nat n
|}.

(** The same world with the geosearch service unreachable. *)
Definition offline_world : World := {|
  geosearch_api := fun _ _ _ _ => inl (AxiosError "Network Error");
  details_api := details_api sample_world;
  search_api := search_api sample_world;
  coordinates_api := coordinates_api sample_world;
  nominatim_api := nominatim_api sample_world;
  clock := clock sample_world
|}.

(** The London viewport with its north edge moved up by [2^-20] degrees:
    another box, the same cache key. *)
Definition london_nudged : BoundingBox :=
  {| north := (51.5 + 0x1p-20)%float; south := 51.25%float;
     east := 0%float; west := (-0.25)%float |}.

(** A landmark as the search client returns it. *)
Definition tower : Landmark :=
  {| pageid := 1; title := "Tower"; lat := 51.5%float; lon := (-0.125)%float;
     description := None; thumbnail := None; address := None;
     distance := Some 0.25%float; isBookmarked := None; facts := None |}.

(** A viewport over central London, and the same with north and south
    exchanged. *)
Definition london : BoundingBox :=
  {| north := 51.5%float; south := 51.25%float; east := 0%float; west := (-0.25)%float |}.
Definition london_inverted : BoundingBox :=
  {| north := 51.25%float; south := 51.5%float; east := 0%float; west := (-0.25)%float |}.

(** A runtime whose trigonometric functions are computed: the Taylor
    polynomials of sine and cosine to degree 25, and the arctangent by
    three halvings of the angle and the Gregory series.  On the arguments
    the distance formula meets (angles up to a right angle) they agree
    with the functions to about 15 digits. *)
Fixpoint alternating (k : nat) (x2 n : float) : float :=
  match k with
  | O => 1%float
  | S k' => (1 - x2 / (n * (n + 1)) * alternating k' x2 (n + 2))%float
  end.

Definition series_sin (x : float) : float := (x * alternating 12 (x * x) 2)%float.
Definition series_cos (x : float) : float := alternating 12 (x * x)%float 1.

Fixpoint gregory (k : nat) (t2 n : float) : float :=
  match k with
  | O => (1 / n)%float
  | S k' => (1 / n - t2 * gregory k' t2 (n + 2))%float
  end.

(** [tan (x / 2)] from [tan x]. *)
Definition halve (t : float) : float := (t / (1 + PrimFloat.sqrt (1 + t * t)))%float.

Definition atan_unit (t : float) : float :=
  let u := halve (halve (halve t)) in
  (8 * (u * gregory 12 (u * u) 1))%float.

Definition series_atan (t : float) : float :=
  if (abs t <=? 1)%float then atan_unit t
  else if (0 <? t)%float then (JsNumber.Math_PI / 2 - atan_unit (1 / t))%float
  else (- (JsNumber.Math_PI / 2) - atan_unit (1 / t))%float.

Definition series_atan2 (y x : float) : float :=
  if (0 <? x)%float then series_atan (y / x)
  else if (x <? 0)%float then
    (if (y <? 0)%float then series_atan (y / x) - JsNumber.Math_PI
     else series_atan (y / x) + JsNumber.Math_PI)%float
  else if (0 <? y)%float then (JsNumber.Math_PI / 2)%float
  else if (y <? 0)%float then (- (JsNumber.Math_PI / 2))%float
  else 0%float.

Definition series_runtime : Runtime := {|
  Math_sin := series_sin;
  Math_cos := series_cos;
  Math_atan2 := series_atan2;
  Math_sqrt := PrimFloat.sqrt;
  Number_toString := fun _ => "NaN"%string;
  parseFloat := fun _ => nan
|}.

(** A few streets of London: 1/128 of a degree from south to north
    (about 869 m) and 1/64 of a degree from west to east (about 1081 m at
    this latitude). *)
Definition streets : BoundingBox :=
  {| north := 51.5078125%float; south := 51.5%float;
     east := (-0.078125)%float; west := (-0.09375)%float |}.

(** The same streets and those to the north of them: 1/32 of a degree
    from south to north. *)
Definition streets_tall : BoundingBox :=
  {| north := 51.53125%float; south := 51.5%float;
     east := (-0.078125)%float; west := (-0.09375)%float |}.

(** * Properties *)

(** ** The definitions on small inputs *)

Example toFixed_london : JsNumber.toFixed sample_runtime 4 51.5%float = "51.5000"%string.
Proof. reflexivity. Qed.

Example toFixed_negative : JsNumber.toFixed sample_runtime 4 (-0.125)%float = "-0.1250"%string.
Proof. reflexivity. Qed.

(** [(1.005).toFixed(2)] is "1.00": the double closest to 1.005 lies below it. *)
Example toFixed_1005 :
  JsNumber.toFixed sample_runtime 2 0x1.0147ae147ae14p+0%float = "1.00"%string.
Proof. reflexivity. Qed.

Example toFixed_tie : JsNumber.toFixed sample_runtime 0 2.5%float = "3"%string.
Proof. reflexivity. Qed.

Example toFixed_negative_zero : JsNumber.toFixed sample_runtime 4 (-0)%float = "0.0000"%string.
Proof. reflexivity. Qed.

Example cacheKey_london :
  cacheKey sample_runtime london = "landmarks_51.5000_51.2500_0.0000_-0.2500"%string.
Proof. reflexivity. Qed.

(** The radius of the search with computed trigonometry: the distance to
    the east edge where the box is wide, the distance to the north edge
    where it is tall, and the cap on a box of a quarter of a degree. *)
Example radius_streets :
  match calls (Wikipedia.fetchLandmarks series_runtime sample_world
                 (north streets) (south streets) (east streets) (west streets) st0).2 with
  | [Geosearch centerLat centerLon radius 50] =>
      centerLat = 51.50390625%float /\ centerLon = (-0.0859375)%float
      /\ (540.625 <? radius)%float = true /\ (radius <? 540.75)%float = true
  | _ => False
  end.
Proof. vm_compute. repeat split. Qed.

Example radius_streets_tall :
  match calls (Wikipedia.fetchLandmarks series_runtime sample_world
                 (north streets_tall) (south streets_tall)
                 (east streets_tall) (west streets_tall) st0).2 with
  | [Geosearch centerLat centerLon radius 50] =>
      centerLat = 51.515625%float /\ centerLon = (-0.0859375)%float
      /\ (1737.375 <? radius)%float = true /\ (radius <? 1737.5)%float = true
  | _ => False
  end.
Proof. vm_compute. repeat split. Qed.

Example radius_london :
  calls (Wikipedia.fetchLandmarks series_runtime sample_world
           (north london) (south london) (east london) (west london) st0).2
  = [Geosearch 51.375 (-0.125) 10000 50].
Proof. vm_compute. reflexivity. Qed.

Example trim_sample : Wikipedia.trim "  Eiffel Tower "%string = "Eiffel Tower"%string.
Proof. reflexivity. Qed.

Example Number_sample :
  Storage.Number (Storage.toString (Storage.Int 1700000900000)) = Storage.Int 1700000900000.
Proof. reflexivity. Qed.

Example sweep_sample :
  let s := (Storage.cacheData 0 "b" 2%nat (Storage.Int 20)
              (Storage.cacheData 0 "a" 1%nat (Storage.Int 10) ∅).2).2 in
  Storage.value <$> Storage.clearExpiredCache 15 s = {[ "b"%string := 2%nat ]}.
Proof. vm_compute. reflexivity. Qed.

Example second_query_is_a_cache_hit :
  let first := Routes.get_landmarks sample_runtime sample_world london st0 in
  let second := Routes.get_landmarks sample_runtime sample_world london first.2 in
  second.1 = first.1 /\ calls second.2 = calls first.2.
Proof. vm_compute. split; reflexivity. Qed.

Section CacheKey.

Import JsNumber.

Lemma toFixed_parts_sign f x s n :
  toFixed_parts f x = Some (s, n) -> 0 <= n /\ s = is_negative x.
Proof.
  unfold toFixed_parts, is_negative.
  destruct (Prim2SF x) as [z | i | | sg m e]; try discriminate.
  - intros [= <- <-]. split; [lia | reflexivity].
  - destruct (_ <=? _); [discriminate |].
    intros [= <- <-]. split; [| reflexivity].
    apply Z.div_pos; [| lia].
    assert (0 < 2 ^ Z.max (- e) 0) by (apply Z.pow_pos_nonneg; lia).
    assert (0 <= 2 ^ Z.max e 0) by (apply Z.pow_nonneg; lia).
    assert (0 <= 10 ^ Z.of_nat f) by (apply Z.pow_nonneg; lia).
    nia.
Qed.

Lemma same_rounding_toFixed rt f x y :
  same_rounding f x y -> toFixed rt f x = toFixed rt f y.
Proof.
  intros (v & Hx & Hy & Hz). unfold rounded_value, toFixed in *.
  destruct (toFixed_parts f x) as [[s1 n1] |] eqn:E1; [| discriminate].
  destruct (toFixed_parts f y) as [[s2 n2] |] eqn:E2; [| discriminate].
  apply toFixed_parts_sign in E1 as [P1 S1], E2 as [P2 S2].
  injection Hx as Hx. injection Hy as Hy.
  assert (s1 = s2 /\ n1 = n2) as [-> ->]; [| reflexivity].
  destruct (Z.eq_dec v 0) as [Hv | Hv].
  - specialize (Hz Hv). split; [congruence |].
    destruct s1, s2; lia.
  - destruct s1, s2; split; try reflexivity; lia.
Qed.

(** C1, as amended: two valid bounding boxes whose four edges round to the
    same values at 4 decimal places, with the same sign wherever that
    value is zero, get the same cache key. *)
Theorem cacheKey_same_rounding rt (B1 B2 : BoundingBox) :
  valid_box B1 -> valid_box B2 ->
  same_rounding 4 (north B1) (north B2) ->
  same_rounding 4 (south B1) (south B2) ->
  same_rounding 4 (east B1) (east B2) ->
  same_rounding 4 (west B1) (west B2) ->
  cacheKey rt B1 = cacheKey rt B2.
Proof.
  intros _ _ Hn Hs He Hw. unfold cacheKey.
  rewrite (same_rounding_toFixed rt _ _ _ Hn), (same_rounding_toFixed rt _ _ _ Hs),
    (same_rounding_toFixed rt _ _ _ He), (same_rounding_toFixed rt _ _ _ Hw).
  reflexivity.
Qed.

End CacheKey.

Lemma same_rounding_sample (x y : float) (v : Z) :
  JsNumber.rounded_value 4 x = Some v ->
  JsNumber.rounded_value 4 y = Some v ->
  JsNumber.is_negative x = JsNumber.is_negative y ->
  JsNumber.same_rounding 4 x y.
Proof. intros Hx Hy Hs. exists v. auto. Qed.

Lemma cacheKey_same_rounding_witness :
  valid_box box_above /\ valid_box box_above'
  /\ cacheKey sample_runtime box_above = cacheKey sample_runtime box_above'.
Proof.
  split; [repeat split |]. split; [repeat split |].
  apply (cacheKey_same_rounding sample_runtime box_above box_above').
  - repeat split.
  - repeat split.
  - apply (same_rounding_sample _ _ 0); reflexivity.
  - apply (same_rounding_sample _ _ (-10000)); reflexivity.
  - apply (same_rounding_sample _ _ 10000); reflexivity.
  - apply (same_rounding_sample _ _ 0); reflexivity.
Defined.

(** C1 as stated fails: [box_above] and [box_below] are valid and round
    to the same four values (0, -1, 1, 0), yet their keys differ, one
    holding "0.0000" and the other "-0.0000". *)
Lemma cacheKey_rounding_counterexample :
  valid_box box_above /\ valid_box box_below
  /\ JsNumber.rounded_value 4 (north box_above) = JsNumber.rounded_value 4 (north box_below)
  /\ JsNumber.rounded_value 4 (south box_above) = JsNumber.rounded_value 4 (south box_below)
  /\ JsNumber.rounded_value 4 (east box_above) = JsNumber.rounded_value 4 (east box_below)
  /\ JsNumber.rounded_value 4 (west box_above) = JsNumber.rounded_value 4 (west box_below)
  /\ cacheKey sample_runtime box_above = "landmarks_0.0000_-1.0000_1.0000_0.0000"%string
  /\ cacheKey sample_runtime box_below = "landmarks_-0.0000_-1.0000_1.0000_0.0000"%string
  /\ cacheKey sample_runtime box_above <> cacheKey sample_runtime box_below.
Proof.
  repeat split; try reflexivity.
  vm_compute. discriminate.
Qed.

(** ** The cache store *)

Section StoreProperties.

Import Storage.

Context {V : Type}.

Implicit Types (s : gmap string (Cache V)) (e : Cache V) (k : string) (now t : Z).

Lemma int_of_string_of_int t :
  NilZero.int_of_string (NilZero.string_of_int (Z.to_int t)) = Some (Z.to_int t).
Proof.
  apply NilZero.isi.
  - destruct t; simpl; try discriminate.
    intros [= H]. exact (Unsigned.to_uint_nonnil _ H).
  - destruct t; simpl; try discriminate.
    intros [= H]. exact (Unsigned.to_uint_nonnil _ H).
Qed.

(** Reading back the expiry that [cacheData] wrote gives the number. *)
Lemma Number_of_toString (x : number) : Number (toString x) = x.
Proof.
  destruct x as [| [] | t]; try reflexivity.
  unfold Number, toString.
  pose proof (int_of_string_of_int t) as H.
  destruct (String.eqb_spec (NilZero.string_of_int (Z.to_int t)) "Infinity") as [E | _].
  { rewrite E in H. discriminate H. }
  destruct (String.eqb_spec (NilZero.string_of_int (Z.to_int t)) "-Infinity") as [E | _].
  { rewrite E in H. discriminate H. }
  rewrite H. f_equal. apply DecimalZ.of_to.
Qed.

Lemma Number_lt_toString t now : Number_lt (toString (Int t)) now = (t <? now).
Proof. unfold Number_lt. by rewrite Number_of_toString. Qed.

(** The sweep never adds or changes an entry. *)
Lemma sweep_fold_sub now (l : list (string * Cache V)) (acc : gmap string (Cache V) * Z) k e :
  (foldl (sweep_step now) acc l).1 !! k = Some e -> acc.1 !! k = Some e.
Proof.
  revert acc. induction l as [| [k' e'] l IH]; intros acc H; [done |].
  simpl in H. apply IH in H. unfold sweep_step in H. simpl in H.
  destruct (Number_lt (expires e') now); [| done].
  simpl in H. apply lookup_delete_Some in H. tauto.
Qed.

Lemma sweep_fold_expired now (l : list (string * Cache V)) (acc : gmap string (Cache V) * Z) k e :
  (k, e) ∈ l -> Number_lt (expires e) now = true ->
  (foldl (sweep_step now) acc l).1 !! k = None.
Proof.
  revert acc. induction l as [| [k' e'] l IH]; intros acc Hin Hexp.
  - by apply elem_of_nil in Hin.
  - apply elem_of_cons in Hin as [[= <- <-] | Hin]; [| by apply IH].
    simpl. destruct (_ !! k) as [e0 |] eqn:E; [| done].
    apply sweep_fold_sub in E. unfold sweep_step in E. simpl in E.
    rewrite Hexp in E. simpl in E. by rewrite lookup_delete_eq in E.
Qed.

Lemma sweep_fold_live now (l : list (string * Cache V)) (acc : gmap string (Cache V) * Z) k :
  (forall e, (k, e) ∈ l -> Number_lt (expires e) now = false) ->
  (foldl (sweep_step now) acc l).1 !! k = acc.1 !! k.
Proof.
  revert acc. induction l as [| [k' e'] l IH]; intros acc Hlive; [done |].
  simpl. rewrite IH.
  - unfold sweep_step. simpl.
    destruct (Number_lt (expires e') now) eqn:E; [| done].
    simpl. apply lookup_delete_ne. intros <-.
    rewrite (Hlive e') in E; [done | apply elem_of_cons; by left].
  - intros e He. apply Hlive. apply elem_of_cons. by right.
Qed.

(** What a key maps to after the sweep. *)
Lemma clearExpiredCache_lookup now s k :
  clearExpiredCache now s !! k =
  match s !! k with
  | Some e => if Number_lt (expires e) now then None else Some e
  | None => None
  end.
Proof.
  unfold clearExpiredCache, clearExpiredCache_count.
  destruct (s !! k) as [e |] eqn:E.
  - destruct (Number_lt (expires e) now) eqn:X.
    + apply (sweep_fold_expired now _ _ k e); [| done].
      by apply elem_of_map_to_list.
    + rewrite sweep_fold_live; [done |].
      intros e' He'. apply elem_of_map_to_list in He'.
      rewrite E in He'. by injection He' as <-.
  - apply eq_None_not_Some. intros [e X].
    apply sweep_fold_sub in X. simpl in X. congruence.
Qed.

(** C6: [cacheData] with an expiry that is not after the current time
    throws, and the map is left as it was: nothing is stored under the
    key and nothing is replaced. *)
Theorem cacheData_past_expiry now k (v : V) t s :
  t <= now ->
  cacheData now k v (Int t) s =
    (inl (Error "Expiry time must be a future timestamp."), s).
Proof.
  intros H. unfold cacheData, le_now.
  destruct (Z.leb_spec t now); [done | lia].
Qed.

(** C2, as amended: after a successful [cacheData k v (now + d)] with
    [d > 0], a read at any time up to and including the expiry instant
    returns [v] and leaves the map alone; a read strictly after the expiry
    returns null and deletes the entry. *)
Theorem get_after_put now k (v : V) d s :
  0 < d ->
  let s' := (cacheData now k v (Int (now + d)) s).2 in
  (cacheData now k v (Int (now + d)) s).1 = inr tt
  /\ (forall now', now' <= now + d -> getCachedData now' k s' = (Some v, s'))
  /\ (forall now', now + d < now' ->
        getCachedData now' k s' = (None, delete k s')).
Proof.
  intros Hd. unfold cacheData, le_now.
  destruct (Z.leb_spec (now + d) now); [lia |]. cbn [fst snd].
  split; [done |].
  split; intros now' Hnow'; unfold getCachedData;
    rewrite lookup_insert_eq; cbn [expires value]; rewrite Number_lt_toString.
  - destruct (Z.ltb_spec (now + d) now'); [lia | done].
  - destruct (Z.ltb_spec (now + d) now'); [done | lia].
Qed.

(** C7: the sweep deletes the entries whose expiry is below the current
    time and keeps every other entry as it is; a second sweep at the same
    time changes nothing. *)
Theorem clearExpiredCache_exact now s :
  (forall k,
      clearExpiredCache now s !! k =
      match s !! k with
      | Some e => if Number_lt (expires e) now then None else Some e
      | None => None
      end)
  /\ clearExpiredCache now (clearExpiredCache now s) = clearExpiredCache now s.
Proof.
  split; [apply clearExpiredCache_lookup |].
  apply map_eq. intros k. rewrite !clearExpiredCache_lookup.
  destruct (s !! k) as [e |]; [| done].
  destruct (Number_lt (expires e) now) eqn:E; [done | by rewrite E].
Qed.

Lemma getCachedData_sub now k s k' e :
  (getCachedData now k s).2 !! k' = Some e -> s !! k' = Some e.
Proof.
  unfold getCachedData. destruct (s !! k) as [e0 |]; [| done].
  destruct (Number_lt _ _); [| done].
  simpl. intros H. apply lookup_delete_Some in H. tauto.
Qed.

Lemma clearExpiredCache_sub now s k e :
  clearExpiredCache now s !! k = Some e -> s !! k = Some e.
Proof.
  rewrite clearExpiredCache_lookup. destruct (s !! k) as [e0 |]; [| done].
  by destruct (Number_lt _ _).
Qed.

Lemma step_well_formed s s' : step s s' -> well_formed s -> well_formed s'.
Proof.
  intros Hstep Hwf. destruct Hstep as [now k s | now k v t s | now s]; intros k' e' H.
  - apply getCachedData_sub in H. by apply Hwf.
  - unfold cacheData in H. destruct (le_now t now); [by apply Hwf |].
    simpl in H. destruct (decide (k = k')) as [<- | Hne].
    + rewrite lookup_insert_eq in H. injection H as <-. simpl. eauto.
    + rewrite lookup_insert_ne in H; [by apply Hwf | done].
  - apply clearExpiredCache_sub in H. by apply Hwf.
Qed.

Lemma reachable_well_formed s : reachable s -> well_formed s.
Proof.
  induction 1 as [| s s' _ IH Hstep].
  - intros k e H. by rewrite lookup_empty in H.
  - by apply (step_well_formed s).
Qed.


End StoreProperties.

Lemma cacheData_past_expiry_witness :
  10 <= 10 /\
  Storage.cacheData 10 "k" "v"%string (Storage.Int 10) ∅ =
    (inl (Error "Expiry time must be a future timestamp."), ∅).
Proof.
  split; [lia |].
  apply (cacheData_past_expiry 10 "k" "v"%string 10 ∅). lia.
Defined.

Lemma get_after_put_witness :
  0 < 900000 /\
  let s' := (Storage.cacheData 1000 "k" "v"%string (Storage.Int (1000 + 900000)) ∅).2 in
  (Storage.cacheData 1000 "k" "v"%string (Storage.Int (1000 + 900000)) ∅).1 = inr tt
  /\ (forall now', now' <= 1000 + 900000 ->
        Storage.getCachedData now' "k" s' = (Some "v"%string, s'))
  /\ (forall now', 1000 + 900000 < now' ->
        Storage.getCachedData now' "k" s' = (None, delete "k" s')).
Proof.
  split; [lia |].
  apply (get_after_put 1000 "k" "v"%string 900000 ∅). lia.
Defined.

(** C2 as stated fails at the expiry instant: an entry written at time 0
    to expire at time 10 is still served by a read at time 10, and stays
    in the map. *)
Lemma get_at_expiry_counterexample :
  let put := Storage.cacheData 0 "k" "v"%string (Storage.Int (0 + 10)) ∅ in
  put.1 = inr tt
  /\ Storage.getCachedData 10 "k" put.2 = (Some "v"%string, put.2)
  /\ (Storage.getCachedData 10 "k" put.2).1 <> None.
Proof.
  repeat split. vm_compute. discriminate.
Qed.

Lemma sample_store_reachable :
  Storage.reachable (Storage.cacheData 0 "k" "v"%string (Storage.Int 10) ∅).2.
Proof.
  apply (Storage.reachable_step ∅); [apply Storage.reachable_new |].
  apply Storage.step_put.
Qed.

(** ** Comparisons of binary64 numbers

    These rest on the specification of the primitive comparisons
    ([ltb_spec], [leb_spec]) that comes with the standard library. *)

Lemma SFcompare_antisym x y :
  SFcompare y x = match SFcompare x y with Some c => Some (CompOpp c) | None => None end.
Proof.
  destruct x as [sx | sx | | sx mx ex], y as [sy | sy | | sy my ey]; simpl;
    try reflexivity; try (destruct sx; reflexivity); try (destruct sy; reflexivity);
    try (destruct sx, sy; reflexivity).
  destruct sx, sy; try reflexivity.
  - rewrite (Z.compare_antisym ex ey). destruct (Z.compare ex ey); simpl; try reflexivity.
    rewrite (Pos.compare_cont_antisym mx my Eq). simpl.
    destruct (Pos.compare_cont Eq mx my); reflexivity.
  - rewrite (Z.compare_antisym ex ey). destruct (Z.compare ex ey); simpl; try reflexivity.
    rewrite (Pos.compare_cont_antisym mx my Eq). reflexivity.
Qed.

(** [x < y] excludes [y < x] and [y <= x]. *)
Lemma ltb_asym (x y : float) :
  (x <? y)%float = true -> (y <? x)%float = false /\ (y <=? x)%float = false.
Proof.
  rewrite !ltb_spec, leb_spec. unfold SFltb, SFleb.
  rewrite (SFcompare_antisym (Prim2SF x) (Prim2SF y)).
  destruct (SFcompare (Prim2SF x) (Prim2SF y)) as [[] |]; simpl; try discriminate; auto.
Qed.

(** [y <= x] excludes [x < y]. *)
Lemma leb_not_ltb (x y : float) : (y <=? x)%float = true -> (x <? y)%float = false.
Proof.
  intros H. destruct (x <? y)%float eqn:E; [| reflexivity].
  apply ltb_asym in E as [_ E]. congruence.
Qed.

(** Two numbers that are not NaN compare. *)
Lemma SFcompare_total x y :
  SFeqb x x = true -> SFeqb y y = true -> exists c, SFcompare x y = Some c.
Proof.
  unfold SFeqb.
  destruct x as [sx | sx | | sx mx ex], y as [sy | sy | | sy my ey]; simpl;
    try discriminate; intros _ _; try (by eexists);
    try (destruct sx; by eexists); try (destruct sy; by eexists);
    try (destruct sx, sy; by eexists);
    destruct sx, sy; try (by eexists);
    destruct (Z.compare ex ey); try (by eexists);
    destruct (Pos.compare_cont Eq mx my); by eexists.
Qed.

Lemma is_nan_false (x : float) : is_nan x = false -> SFeqb (Prim2SF x) (Prim2SF x) = true.
Proof.
  unfold is_nan. rewrite FloatAxioms.eqb_spec. by destruct (SFeqb _ _).
Qed.

(** Without NaN, [a < b] failing means [b <= a]. *)
Lemma not_ltb_leb (a b : float) :
  is_nan a = false -> is_nan b = false -> (a <? b)%float = false -> (b <=? a)%float = true.
Proof.
  intros Ha Hb. rewrite ltb_spec, leb_spec. unfold SFltb, SFleb.
  rewrite (SFcompare_antisym (Prim2SF a) (Prim2SF b)).
  destruct (SFcompare_total _ _ (is_nan_false a Ha) (is_nan_false b Hb)) as [c ->].
  by destruct c.
Qed.

Lemma ltb_leb (a b : float) : (a <? b)%float = true -> (a <=? b)%float = true.
Proof.
  rewrite ltb_spec, leb_spec. unfold SFltb, SFleb.
  by destruct (SFcompare _ _) as [[] |].
Qed.

Lemma leb_refl (a : float) : is_nan a = false -> (a <=? a)%float = true.
Proof.
  intros Ha. apply not_ltb_leb; [done | done |].
  destruct (a <? a)%float eqn:E; [| done]. destruct (ltb_asym _ _ E) as [E' _]. congruence.
Qed.

(** [Math.max] and [Math.min] are the maximum and the minimum of the
    specification. *)
Lemma Math_max_is_max (a b : float) : GeoSpec.is_max a b (JsNumber.Math_max a b).
Proof.
  unfold GeoSpec.is_max, JsNumber.Math_max.
  destruct (is_nan a) eqn:Ha; [done |]. destruct (is_nan b) eqn:Hb; [done |].
  cbn [orb].
  destruct (a <? b)%float eqn:E1.
  { split; [by right |]. split; [by apply ltb_leb | by apply leb_refl]. }
  destruct (b <? a)%float eqn:E2.
  { split; [by left |]. split; [by apply leb_refl | by apply ltb_leb]. }
  destruct (get_sign a).
  - split; [by right |]. split; [by apply not_ltb_leb | by apply leb_refl].
  - split; [by left |]. split; [by apply leb_refl | by apply not_ltb_leb].
Qed.

Lemma Math_min_is_min (a b : float) : GeoSpec.is_min a b (JsNumber.Math_min a b).
Proof.
  unfold GeoSpec.is_min, JsNumber.Math_min.
  destruct (is_nan a) eqn:Ha; [done |]. destruct (is_nan b) eqn:Hb; [done |].
  cbn [orb].
  destruct (a <? b)%float eqn:E1.
  { split; [by left |]. split; [by apply leb_refl | by apply ltb_leb]. }
  destruct (b <? a)%float eqn:E2.
  { split; [by right |]. split; [by apply ltb_leb | by apply leb_refl]. }
  destruct (get_sign a).
  - split; [by left |]. split; [by apply leb_refl | by apply not_ltb_leb].
  - split; [by right |]. split; [by apply not_ltb_leb | by apply leb_refl].
Qed.

(** ** The routes *)

Section RouteProperties.

Import Wikipedia Routes.

Context (rt : Runtime) (w : World).

Ltac run := unfold mbind, M_bind, mret, M_ret, throw, try_catch, axios_get in *; simpl in *.

(** An inverted box makes the search client throw before it issues any
    request. *)
Lemma fetchLandmarks_inverted n s e we st :
  (n <? s)%float = true \/ (e <? we)%float = true ->
  fetchLandmarks rt w n s e we st = (inl (Error "Invalid map bounds provided."), st).
Proof.
  intros H. unfold fetchLandmarks.
  replace ((n <? s)%float || (e <? we)%float) with true; [done |].
  symmetry. apply orb_true_iff. exact H.
Qed.

(** C3, as amended: a landmark query with north below south or east below
    west issues no upstream request; unless the cache still holds a live
    entry under its key, the response is the route's 500 error; in no
    case is it a 400-class error. *)
Theorem inverted_bounds_no_upstream (q : BoundingBox) st :
  (north q <? south q)%float = true \/ (east q <? west q)%float = true ->
  let r := get_landmarks rt w q st in
  calls r.2 = calls st
  /\ ((Storage.getCachedData (clock w (ticks st)) (cacheKey rt q) (storage st)).1 = None ->
        r.1 = json 500 (Message "Failed to fetch landmarks"))
  /\ (status r.1 = 500 \/ status r.1 = 200).
Proof.
  intros H. unfold get_landmarks, landmarks_try.
  destruct (boundsSchema q); simpl; [| by auto].
  run. unfold storage_getCachedData, Storage.getCachedData.
  destruct (storage st !! cacheKey rt q) as [e |] eqn:E; simpl.
  - destruct (Storage.Number_lt (Storage.expires e) (clock w (ticks st))); simpl.
    + rewrite fetchLandmarks_inverted by done. simpl. auto.
    + split; [done |]. split; [done | by right].
  - rewrite fetchLandmarks_inverted by done. simpl. auto.
Qed.

(** *** Geocoding *)

Lemma issued_app st st' l : calls st' = calls st ++ l -> issued st st' = l.
Proof. intros H. unfold issued. rewrite H. apply drop_app_length. Qed.

(** The primary place search touches neither the store nor the clock, and
    none of its requests goes to the secondary service. *)
Lemma searchWikipedia_calls q st :
  exists l, calls (searchWikipedia w q st).2 = calls st ++ l
            /\ filter is_secondary l = [].
Proof.
  unfold searchWikipedia.
  destruct (String.eqb q "" || Nat.eqb (String.length (trim q)) 0).
  { exists []. simpl. by rewrite app_nil_r. }
  run. destruct (search_api w (calls st) q) as [err | [[| first rest] |]]; simpl;
    try (by exists [Search q 5]).
  destruct (coordinates_api w _ _) as [err | [page |]]; simpl;
    try (exists [Search q 5; Coordinates (hit_pageid first)]; by rewrite <- app_assoc).
  destruct (coordinates page);
    exists [Search q 5; Coordinates (hit_pageid first)]; by rewrite <- app_assoc.
Qed.

(** The inner [try] of the geocode route ends where the primary search
    ended and answers exactly when that search returned a first match. *)
Lemma geocode_wikipedia_spec q st :
  geocode_wikipedia w q st =
  (inr match (searchWikipedia w q st).1 with
       | inr (first :: _) =>
           Some (json 200 (GeocodeResult (geo_lat first) (geo_lon first) (geo_title first)))
       | _ => None
       end,
   (searchWikipedia w q st).2).
Proof.
  unfold geocode_wikipedia. run.
  destruct (searchWikipedia w q st) as [[err | [| first rest]] st']; done.
Qed.

(** The geocode route on a query that passes the schema, by the outcome
    of the primary search and the answer of the secondary service. *)
Lemma get_geocode_spec (q : string) st :
  (1 <= String.length q)%nat ->
  get_geocode rt w (Some q) st =
  let st1 := (searchWikipedia w q st).2 in
  match (searchWikipedia w q st).1 with
  | inr (first :: _) =>
      (json 200 (GeocodeResult (geo_lat first) (geo_lon first) (geo_title first)), st1)
  | _ =>
      (match nominatim_api w (calls st1) q with
       | inr (Some (location :: _)) =>
           json 200 (GeocodeResult (parseFloat rt (place_lat location))
                                   (parseFloat rt (place_lon location))
                                   (display_name location))
       | inr (Some []) | inr None => json 404 (Message "Location not found")
       | inl _ => json 500 (Message "Failed to geocode location")
       end,
       {| storage := storage st1; calls := calls st1 ++ [Nominatim q 1];
          ticks := ticks st1 |})
  end.
Proof.
  intros Hlen. unfold get_geocode, geocode_try, querySchema.
  replace (Nat.leb 1 (String.length q)) with true
    by (symmetry; by apply Nat.leb_le).
  unfold mbind, M_bind, mret, M_ret, axios_get.
  rewrite geocode_wikipedia_spec.
  destruct (searchWikipedia w q st) as [res st1]. cbn [fst snd].
  destruct res as [err | [| first rest]]; try done;
    by destruct (nominatim_api w (calls st1) q) as [err' | [[| location rest'] |]].
Qed.

(** C4: for a query of at least one character, a first match of the
    primary place search is returned at once and no request goes to the
    secondary service; when the primary search throws or returns nothing,
    one request goes to the secondary service, whose first match is
    returned, and whose empty answer ends in 404 "Location not found". *)
Theorem geocode_fallback_chain (q : string) st :
  (1 <= String.length q)%nat ->
  let primary := searchWikipedia w q st in
  let r := get_geocode rt w (Some q) st in
  match primary.1 with
  | inr (first :: _) =>
      r = (json 200 (GeocodeResult (geo_lat first) (geo_lon first) (geo_title first)),
           primary.2)
      /\ filter is_secondary (issued st r.2) = []
  | inr [] | inl _ =>
      issued primary.2 r.2 = [Nominatim q 1]
      /\ filter is_secondary (issued st r.2) = [Nominatim q 1]
      /\ match nominatim_api w (calls primary.2) q with
         | inr (Some (location :: _)) =>
             r.1 = json 200 (GeocodeResult (parseFloat rt (place_lat location))
                                           (parseFloat rt (place_lon location))
                                           (display_name location))
         | inr (Some []) | inr None => r.1 = json 404 (Message "Location not found")
         | inl _ => r.1 = json 500 (Message "Failed to geocode location")
         end
  end.
Proof.
  intros Hlen primary r. subst r primary.
  rewrite get_geocode_spec by done.
  destruct (searchWikipedia_calls q st) as (l & Hl & Hsec).
  destruct (searchWikipedia w q st) as [res st1]. cbn [fst snd] in *.
  assert (Hfall :
    let st2 := {| storage := storage st1; calls := calls st1 ++ [Nominatim q 1];
                  ticks := ticks st1 |} in
    issued st1 st2 = [Nominatim q 1]
    /\ filter is_secondary (issued st st2) = [Nominatim q 1]).
  { split; [by apply issued_app |].
    rewrite (issued_app st _ (l ++ [Nominatim q 1])).
    - by rewrite filter_app, Hsec.
    - simpl. by rewrite Hl, <- app_assoc. }
  destruct Hfall as [H1 H2].
  destruct res as [err | [| first rest]].
  - split; [exact H1 |]. split; [exact H2 |]. cbn [fst snd].
    by destruct (nominatim_api w (calls st1) q) as [err' | [[| location rest'] |]].
  - split; [exact H1 |]. split; [exact H2 |]. cbn [fst snd].
    by destruct (nominatim_api w (calls st1) q) as [err' | [[| location rest'] |]].
  - split; [done |]. cbn [fst snd]. by rewrite (issued_app st st1 l).
Qed.

Lemma blank_trimStart q : blank q = true -> trimStart q = "".
Proof.
  induction q as [| c q IH]; simpl; [done |].
  intros H. apply andb_true_iff in H as [Hc Hq]. rewrite Hc. by apply IH.
Qed.

Lemma blank_trim q : blank q = true -> trim q = "".
Proof. intros H. unfold trim. by rewrite blank_trimStart. Qed.

(** C10: a query that is not empty but holds white space only passes the
    query schema; the primary place search then throws without issuing a
    request; the route swallows that and sends the query to the secondary
    service, so the answer is not a 400. *)
Theorem blank_query_falls_through (q : string) st :
  q <> ""%string -> blank q = true ->
  let r := get_geocode rt w (Some q) st in
  querySchema (Some q) st = (inr q, st)
  /\ searchWikipedia w q st = (inl (Error "Search query cannot be empty."), st)
  /\ geocode_wikipedia w q st = (inr None, st)
  /\ calls r.2 = calls st ++ [Nominatim q 1]
  /\ status r.1 <> 400.
Proof.
  intros Hne Hblank. simpl.
  assert (Hq : querySchema (Some q) st = (inr q, st)).
  { unfold querySchema. destruct q; [done | done]. }
  assert (Hs : searchWikipedia w q st = (inl (Error "Search query cannot be empty."), st)).
  { unfold searchWikipedia. rewrite blank_trim by done. simpl.
    by rewrite orb_true_r. }
  assert (Hg : geocode_wikipedia w q st = (inr None, st)).
  { rewrite geocode_wikipedia_spec. by rewrite Hs. }
  assert (Hlen : (1 <= String.length q)%nat).
  { destruct q; [done | simpl; lia]. }
  rewrite (get_geocode_spec q st Hlen), Hs. cbn [fst snd].
  repeat split; try done.
  by destruct (nominatim_api w (calls st) q) as [err | [[| location rest] |]].
Qed.

(** *** The landmark search client and the detail fan-out *)

(** C8: for every bounding box the search client accepts, the one request
    it issues is a geosearch for up to 50 pages around
    ((north+south)/2, (east+west)/2), and its radius is the minimum of
    10000 and 1000 times the maximum of the distances in km from the
    centre to the north edge and from the centre to the east edge.  The
    distance is the Haversine formula of the specification with Earth
    radius 6371 km on coordinates converted to radians, and
    [haversineDistance] computes it, for all coordinates.  Maximum and
    minimum are stated by comparison, not through [Math.max] and
    [Math.min]. *)
Theorem geosearch_center_radius (n s e we : float) st :
  (n <? s)%float = false -> (e <? we)%float = false ->
  let centerLat := ((n + s) / 2)%float in
  let centerLon := ((e + we) / 2)%float in
  (exists radius,
     calls (fetchLandmarks rt w n s e we st).2
       = calls st ++ [Geosearch centerLat centerLon radius 50]
     /\ GeoSpec.capped_radius
          (GeoSpec.haversine_km rt centerLat centerLon n centerLon)
          (GeoSpec.haversine_km rt centerLat centerLon centerLat e)
          radius)
  /\ forall lat1 lon1 lat2 lon2,
       haversineDistance rt lat1 lon1 lat2 lon2
       = GeoSpec.haversine_km rt lat1 lon1 lat2 lon2.
Proof.
  intros Hn He centerLat centerLon. split; [| reflexivity].
  exists (JsNumber.Math_min
            (JsNumber.Math_max (haversineDistance rt centerLat centerLon n centerLon)
                               (haversineDistance rt centerLat centerLon centerLat e)
             * 1000)%float
            MAX_RADIUS).
  split.
  - unfold fetchLandmarks. rewrite Hn, He. cbn [orb].
    unfold mbind, M_bind, mret, M_ret, axios_get. cbn zeta.
    fold centerLat centerLon.
    by destruct (geosearch_api w (calls st) _ _ _) as [err | [results |]].
  - exists (JsNumber.Math_max (haversineDistance rt centerLat centerLon n centerLon)
                             (haversineDistance rt centerLat centerLon centerLat e)).
    split.
    + exact (Math_max_is_max (haversineDistance rt centerLat centerLon n centerLon)
                             (haversineDistance rt centerLat centerLon centerLat e)).
    + exact (Math_min_is_min _ _).
Qed.

(** What the search client returns carries no description and no
    thumbnail yet. *)
Lemma fetchLandmarks_plain n s e we st ls st1 :
  fetchLandmarks rt w n s e we st = (inr ls, st1) ->
  Forall (fun l => description l = None /\ thumbnail l = None) ls.
Proof.
  unfold fetchLandmarks. destruct (_ || _); [done |]. run.
  destruct (geosearch_api w (calls st) _ _ _) as [err | [results |]]; simpl;
    intros [= <- <-]; [| by constructor].
  apply Forall_fmap, Forall_true. by intros r.
Qed.

(** The callback never throws: it ends where the detail request ended,
    with the landmark it was given or that landmark with the details. *)
Lemma with_details_spec (l : Landmark) st :
  exists o,
    with_details w l st = (inr o, (fetchLandmarkDetails w (pageid l) st).2)
    /\ pageid o = pageid l /\ title o = title l /\ lat o = lat l /\ lon o = lon l
    /\ match (fetchLandmarkDetails w (pageid l) st).1 with
       | inl _ => o = l
       | inr details =>
           description o = extract details
           /\ thumbnail o = source <$> det_thumbnail details
       end.
Proof.
  unfold with_details. unfold try_catch, mbind, M_bind, mret, M_ret.
  destruct (fetchLandmarkDetails w (pageid l) st) as [[err | details] st'];
    eexists; (split; [reflexivity |]); simpl; auto 10.
Qed.

Lemma Promise_all_cons_state {A B} (f : A -> M B) x xs st y st1 :
  f x st = (inr y, st1) ->
  (Promise_all f (x :: xs) st).2 = (Promise_all f xs st1).2.
Proof.
  intros H. simpl. unfold mbind, M_bind, mret, M_ret. rewrite H.
  by destruct (Promise_all f xs st1) as [[err | ys] st2].
Qed.

Lemma Promise_all_with_details ls st :
  exists out st',
    Promise_all (with_details w) ls st = (inr out, st')
    /\ length out = length ls
    /\ forall i l, ls !! i = Some l ->
         exists o, out !! i = Some o
           /\ pageid o = pageid l /\ title o = title l
           /\ lat o = lat l /\ lon o = lon l
           /\ match (fetchLandmarkDetails w (pageid l)
                       (Promise_all (with_details w) (take i ls) st).2).1 with
              | inl _ => o = l
              | inr details =>
                  description o = extract details
                  /\ thumbnail o = source <$> det_thumbnail details
              end.
Proof.
  revert st. induction ls as [| l0 rest IH]; intros st.
  - exists [], st. repeat split. intros i l H. by rewrite lookup_nil in H.
  - destruct (with_details_spec l0 st) as (o0 & H0 & Hfields).
    destruct (IH (fetchLandmarkDetails w (pageid l0) st).2) as (out & st' & Hrest & Hlen & Hall).
    exists (o0 :: out), st'. split; [| split].
    + simpl. unfold mbind, M_bind, mret, M_ret. by rewrite H0, Hrest.
    + simpl. by rewrite Hlen.
    + intros [| i] l Hl.
      * injection Hl as <-. exists o0. split; [done |]. exact Hfields.
      * destruct (Hall i l Hl) as (o & Ho & Hf). exists o. split; [done |].
        rewrite firstn_cons, (Promise_all_cons_state _ _ _ _ _ _ H0). exact Hf.
Qed.

(** C5, as amended: whatever detail requests fail, the fan-out over the
    landmarks of a search does not throw; it returns as many entries as
    there were landmarks, in the same order, each with the pageid, title,
    lat and lon of its landmark.  An entry whose detail request failed has
    no description and no thumbnail; an entry whose detail request
    succeeded has the extract and the thumbnail source of the answer,
    either of which may be missing. *)
Theorem details_fault_isolation (n s e we : float) st ls st1 :
  fetchLandmarks rt w n s e we st = (inr ls, st1) ->
  exists out st2,
    Promise_all (with_details w) ls st1 = (inr out, st2)
    /\ length out = length ls
    /\ forall i l, ls !! i = Some l ->
         exists o, out !! i = Some o
           /\ pageid o = pageid l /\ title o = title l
           /\ lat o = lat l /\ lon o = lon l
           /\ match (fetchLandmarkDetails w (pageid l)
                       (Promise_all (with_details w) (take i ls) st1).2).1 with
              | inl _ => description o = None /\ thumbnail o = None
              | inr details =>
                  description o = extract details
                  /\ thumbnail o = source <$> det_thumbnail details
              end.
Proof.
  intros Hfetch. apply fetchLandmarks_plain in Hfetch as Hplain.
  destruct (Promise_all_with_details ls st1) as (out & st2 & Hrun & Hlen & Hall).
  exists out, st2. split; [done |]. split; [done |].
  intros i l Hl. destruct (Hall i l Hl) as (o & Ho & Hp & Ht & Hla & Hlo & Hd).
  exists o. repeat (split; [done |]).
  destruct (fetchLandmarkDetails w (pageid l) _).1 as [err | details]; [| done].
  subst o. rewrite Forall_lookup in Hplain. exact (Hplain i l Hl).
Qed.

(** On a cache miss the route answers with the list the fan-out built,
    provided the clock has not moved past the expiry it has just
    computed. *)
Lemma get_landmarks_miss (q : BoundingBox) st ls st1 out st2 :
  boundsSchema q = true ->
  storage st !! cacheKey rt q = None ->
  fetchLandmarks rt w (north q) (south q) (east q) (west q) st = (inr ls, st1) ->
  Promise_all (with_details w) ls st1 = (inr out, st2) ->
  clock w (S (ticks st2)) < clock w (ticks st2) + CACHE_EXPIRY_TIME ->
  (get_landmarks rt w q st).1 = json 200 (LandmarkList out).
Proof.
  intros Hb Hmiss Hfetch Hrun Hclock.
  unfold get_landmarks, landmarks_try. rewrite Hb. simpl.
  unfold mbind, M_bind, mret, M_ret, storage_getCachedData.
  rewrite Hmiss, Hfetch, Hrun. unfold Date_now, storage_cacheData, Storage.cacheData.
  simpl. destruct (Z.leb_spec (clock w (ticks st2) + CACHE_EXPIRY_TIME) (clock w (S (ticks st2))));
    [lia | done].
Qed.

End RouteProperties.

Lemma inverted_bounds_no_upstream_witness :
  (north london_inverted <? south london_inverted)%float = true
  /\ calls (Routes.get_landmarks sample_runtime sample_world london_inverted st0).2 = [].
Proof.
  split; [reflexivity |].
  apply (inverted_bounds_no_upstream sample_runtime sample_world london_inverted st0).
  left. reflexivity.
Defined.

(** C3 as stated fails: the inverted London box is answered with status
    500, which is not a 400-class status. *)
Lemma inverted_bounds_counterexample :
  (north london_inverted <? south london_inverted)%float = true
  /\ Routes.get_landmarks sample_runtime sample_world london_inverted st0
     = (Routes.json 500 (Routes.Message "Failed to fetch landmarks"), st0)
  /\ ~ (400 <= Routes.status (Routes.get_landmarks sample_runtime sample_world london_inverted st0).1 < 500).
Proof.
  repeat split. vm_compute. intros [_ H]. discriminate H.
Qed.

Lemma geocode_fallback_chain_witness :
  (1 <= String.length "Eiffel Tower")%nat
  /\ Routes.get_geocode sample_runtime sample_world (Some "Eiffel Tower"%string) st0
     = (Routes.json 200 (Routes.GeocodeResult 48.875 2.25 "Eiffel Tower"),
        {| storage := ∅; calls := [Search "Eiffel Tower" 5; Coordinates 7]; ticks := 0 |})
  /\ filter is_secondary
       (issued st0 (Routes.get_geocode sample_runtime sample_world
                      (Some "Eiffel Tower"%string) st0).2) = [].
Proof.
  split; [simpl; lia |].
  exact (geocode_fallback_chain sample_runtime sample_world "Eiffel Tower" st0
           ltac:(simpl; lia)).
Defined.

Lemma blank_query_falls_through_witness :
  "  "%string <> ""%string /\ Wikipedia.blank "  " = true
  /\ calls (Routes.get_geocode sample_runtime sample_world (Some "  "%string) st0).2
     = [Nominatim "  " 1].
Proof.
  split; [discriminate |]. split; [reflexivity |].
  apply (blank_query_falls_through sample_runtime sample_world "  " st0);
    [discriminate | reflexivity].
Defined.

Lemma geosearch_center_radius_witness :
  (north streets <? south streets)%float = false
  /\ (east streets <? west streets)%float = false
  /\ exists radius,
       calls (Wikipedia.fetchLandmarks series_runtime sample_world
                (north streets) (south streets) (east streets) (west streets) st0).2
       = [Geosearch 51.50390625 (-0.0859375) radius 50]
       /\ (540.625 <? radius)%float = true /\ (radius <? 540.75)%float = true.
Proof.
  split; [reflexivity |]. split; [reflexivity |].
  destruct (proj1 (geosearch_center_radius series_runtime sample_world
                     (north streets) (south streets) (east streets) (west streets) st0
                     eq_refl eq_refl))
    as (radius & Hcalls & m & Hmax & Hmin).
  exists radius. split; [exact Hcalls |].
  vm_compute in Hmax. destruct Hmax as ([-> | ->] & Hn & He).
  - discriminate He.
  - vm_compute in Hmin. destruct Hmin as ([-> | ->] & H1 & H2).
    + split; reflexivity.
    + discriminate H1.
Defined.

Lemma details_fault_isolation_witness :
  let r := Wikipedia.fetchLandmarks sample_runtime sample_world
             (north london) (south london) (east london) (west london) st0 in
  match r.1 with
  | inr ls =>
      exists out st2,
        Routes.Promise_all (Routes.with_details sample_world) ls r.2 = (inr out, st2)
        /\ length out = length ls
  | inl _ => False
  end.
Proof.
  destruct (Wikipedia.fetchLandmarks sample_runtime sample_world
              (north london) (south london) (east london) (west london) st0)
    as [[err | ls] st1] eqn:H; cbn [fst snd].
  - vm_compute in H. discriminate H.
  - destruct (details_fault_isolation sample_runtime sample_world
                (north london) (south london) (east london) (west london) st0 ls st1 H)
      as (out & st2 & Hrun & Hlen & _).
    exists out, st2. split; [exact Hrun | exact Hlen].
Defined.

(** C5 as stated fails: of the three landmarks found for the London box
    only the second has a failing detail request, yet the third comes
    back without description and thumbnail as well, its detail request
    having succeeded with a page that has neither. *)
Lemma details_precisely_counterexample :
  let r := Routes.get_landmarks sample_runtime sample_world london st0 in
  let out := match Routes.body r.1 with Routes.LandmarkList l => l | _ => [] end in
  Routes.status r.1 = 200
  /\ pageid <$> out = [1; 2; 3]
  /\ description <$> out = [Some "A tower."%string; None; None]
  /\ thumbnail <$> out = [Some "tower.jpg"%string; None; None]
  /\ calls r.2 = [Geosearch 51.375 (-0.125) 10000 50;
                  PageDetails 1; PageDetails 2; PageDetails 3]
  /\ details_api sample_world
       [Geosearch 51.375 (-0.125) 10000 50; PageDetails 1] 2
     = inl (AxiosError "Network Error")
  /\ details_api sample_world
       [Geosearch 51.375 (-0.125) 10000 50; PageDetails 1; PageDetails 2] 3
     = inr (Some {| det_pageid := 3; det_title := "Stub"; extract := None;
                    det_thumbnail := None |}).
Proof.
  vm_compute. repeat split.
Qed.

(** * Further properties of the cache store *)

Section StoreFurther.

Import Storage.

Context {V : Type}.

Implicit Types (s : gmap string (Cache V)) (e : Cache V) (k : string) (now t : Z).

(** A write under one key, accepted or refused, is invisible to a read of
    any other key: the other key maps to what it mapped to, and its read
    returns what it would have returned. *)
Theorem cacheData_frame now k (v : V) (t : number) s now' k' :
  k <> k' ->
  (cacheData now k v t s).2 !! k' = s !! k'
  /\ (getCachedData now' k' (cacheData now k v t s).2).1
     = (getCachedData now' k' s).1.
Proof.
  intros Hne.
  assert (H : (cacheData now k v t s).2 !! k' = s !! k').
  { unfold cacheData. destruct (le_now t now); [done |].
    cbn [snd]. by rewrite lookup_insert_ne. }
  split; [done |]. unfold getCachedData. rewrite H.
  destruct (s !! k') as [e' |]; [| done].
  by destruct (Number_lt (expires e') now').
Qed.

(** The last accepted write wins: after two accepted writes under one
    key, a read returns the second value up to and including the second
    expiry and nothing after it, whatever the first write held; and the
    second write does not grow the map. *)
Theorem cacheData_overwrite now1 now2 k (v1 v2 : V) t1 t2 s now' :
  now1 < t1 -> now2 < t2 ->
  let s2 := (cacheData now2 k v2 (Int t2) (cacheData now1 k v1 (Int t1) s).2).2 in
  (getCachedData now' k s2).1 = (if t2 <? now' then None else Some v2)
  /\ size s2 = size (cacheData now1 k v1 (Int t1) s).2.
Proof.
  intros H1 H2. unfold cacheData, le_now.
  destruct (Z.leb_spec t1 now1); [lia |].
  destruct (Z.leb_spec t2 now2); [lia |]. cbn [snd]. split.
  - unfold getCachedData. rewrite lookup_insert_eq. cbn [expires value].
    rewrite Number_lt_toString. by destruct (t2 <? now').
  - rewrite insert_insert_eq.
    destruct (s !! k) as [e |] eqn:E.
    + by rewrite !map_size_insert_Some.
    + by rewrite !map_size_insert_None.
Qed.

(** A read changes nothing but, at most, the key it reads: other keys map
    to what they mapped to; a read that returns a value leaves the whole
    map as it was; a read that returns null leaves no entry under its
    key. *)
Theorem getCachedData_touches_only_its_key now k s :
  (forall k', k' <> k -> (getCachedData now k s).2 !! k' = s !! k')
  /\ ((getCachedData now k s).1 <> None -> (getCachedData now k s).2 = s)
  /\ ((getCachedData now k s).1 = None -> (getCachedData now k s).2 !! k = None).
Proof.
  unfold getCachedData. destruct (s !! k) as [e |] eqn:E.
  - destruct (Number_lt (expires e) now); cbn [fst snd].
    + repeat split; try done.
      * intros k' Hne. by rewrite lookup_delete_ne.
      * intros _. apply lookup_delete_eq.
    + repeat split; done.
  - repeat split; done.
Qed.

(** The sweep is invisible to readers: a read at the time of the sweep or
    later returns what it would have returned without the sweep. *)
Theorem sweep_transparent_to_reads now now' k s :
  now <= now' ->
  (getCachedData now' k (clearExpiredCache now s)).1 = (getCachedData now' k s).1.
Proof.
  intros Hle. unfold getCachedData. rewrite clearExpiredCache_lookup.
  destruct (s !! k) as [e |]; [| done].
  destruct (Number_lt (expires e) now) eqn:X;
    [| by destruct (Number_lt (expires e) now')].
  replace (Number_lt (expires e) now') with true; [done |].
  unfold Number_lt, lt_now in *.
  destruct (Number (expires e)) as [| negative | t]; [done | done |].
  symmetry. apply Z.ltb_lt. apply Z.ltb_lt in X. lia.
Qed.

(** Size of the map and count of deletions along the [forEach] of the
    sweep add up to the size at the start. *)
Lemma sweep_fold_count now (l : list (string * Cache V)) (acc : gmap string (Cache V) * Z) :
  NoDup l.*1 ->
  (forall k e, (k, e) ∈ l -> acc.1 !! k = Some e) ->
  Z.of_nat (size (foldl (sweep_step now) acc l).1) + (foldl (sweep_step now) acc l).2
  = Z.of_nat (size acc.1) + acc.2.
Proof.
  revert acc. induction l as [| [k e] l IH]; intros acc Hnd Hin; [done |].
  apply NoDup_cons in Hnd as [Hk Hnd]. cbn [foldl].
  rewrite IH; [| done |].
  - unfold sweep_step. cbn [fst snd].
    destruct (Number_lt (expires e) now); [| done]. cbn [fst snd].
    assert (acc.1 !! k = Some e) as Hke by (apply Hin, elem_of_cons; by left).
    pose proof (map_size_delete k acc.1) as Hsz. rewrite Hke in Hsz.
    assert (size acc.1 <> 0%nat).
    { intros Hz. apply map_size_empty_inv in Hz. rewrite Hz in Hke. done. }
    lia.
  - intros k' e' Hin'.
    assert (acc.1 !! k' = Some e') as Hke' by (apply Hin, elem_of_cons; by right).
    unfold sweep_step. cbn [fst snd].
    destruct (Number_lt (expires e) now); [| done]. cbn [fst].
    rewrite lookup_delete_ne; [done |]. intros <-.
    apply Hk. apply list_elem_of_fmap. by exists (k, e').
Qed.

(** The count the sweep logs ([expiredCount]) is the number of entries it
    removed: the size before minus the size after. *)
Theorem expiredCount_is_size_drop now s :
  (clearExpiredCache_count now s).2
  = Z.of_nat (size s) - Z.of_nat (size (clearExpiredCache now s))
  /\ 0 <= (clearExpiredCache_count now s).2 <= Z.of_nat (size s).
Proof.
  unfold clearExpiredCache.
  pose proof (sweep_fold_count now (map_to_list s) (s, 0)) as H.
  cbn [fst snd] in H. unfold clearExpiredCache_count.
  rewrite Z.add_0_r in H.
  assert (Hsub : (size (foldl (sweep_step now) (s, 0%Z) (map_to_list s)).1 <= size s)%nat).
  { apply map_subseteq_size, map_subseteq_spec. intros k e Hke.
    by apply sweep_fold_sub in Hke. }
  specialize (H (NoDup_fst_map_to_list s)).
  assert (forall k e, (k, e) ∈ map_to_list s -> s !! k = Some e) as Hin.
  { intros k e. apply elem_of_map_to_list. }
  specialize (H Hin). lia.
Qed.

End StoreFurther.

Section StoreInvariant.

Import Storage.

Context {V : Type}.

(** In a store reached from the empty one every entry is filed under the
    key it records and carries a positive [id]; its [expires] is the
    printed form of the number [x] that the accepted write was given, and
    reads back as that same number.  [x] is NaN, Infinity or a timestamp
    (the guard lets NaN and Infinity through); it is never -Infinity,
    which the guard refuses. *)
Theorem reachable_entries (s : gmap string (Cache V)) :
  reachable s ->
  forall k e, s !! k = Some e ->
    key e = k /\ 1 <= id e
    /\ exists x, expires e = toString x /\ Number (expires e) = x
                 /\ x <> Infinity true.
Proof.
  induction 1 as [| s s' _ IH Hstep]; intros k e Hke.
  - by rewrite lookup_empty in Hke.
  - destruct Hstep as [now k0 s | now k0 v t s | now s].
    + apply getCachedData_sub in Hke. by apply IH.
    + unfold cacheData in Hke. destruct (le_now t now) eqn:Hguard; [by apply IH |].
      cbn [snd] in Hke. destruct (decide (k0 = k)) as [<- | Hne].
      * rewrite lookup_insert_eq in Hke. injection Hke as <-. cbn [key id expires].
        split; [done |]. split; [lia |]. exists t. split; [done |].
        split; [apply Number_of_toString |]. by intros ->.
      * rewrite lookup_insert_ne in Hke by done. by apply IH.
    + apply clearExpiredCache_sub in Hke. by apply IH.
Qed.

(** What holds of the freshness of the cache in every store reached from
    the empty one.  A read that returns a value returns the value of the
    entry under the key, and the number [x] that entry was written with is
    NaN, Infinity, or a timestamp not before the time of the read.  A write
    that is accepted was given NaN, Infinity, or a timestamp after the
    time of the write.  Reads and sweeps add no entry. *)
Theorem served_entries_not_in_the_past (s : gmap string (Cache V)) :
  reachable s ->
  (forall now k v, (getCachedData now k s).1 = Some v ->
     exists e x, s !! k = Some e /\ value e = v
       /\ expires e = toString x /\ Number (expires e) = x
       /\ (x = NaN \/ x = Infinity false \/ exists t, x = Int t /\ now <= t))
  /\ (forall now k v x, (cacheData now k v x s).1 = inr tt ->
        x = NaN \/ x = Infinity false \/ exists t, x = Int t /\ now < t)
  /\ (forall now k e, (getCachedData now k s).2 !! k = Some e -> s !! k = Some e)
  /\ (forall now k e, clearExpiredCache now s !! k = Some e -> s !! k = Some e).
Proof.
  intros Hs. pose proof (reachable_well_formed s Hs) as Hwf.
  split; [| split; [| split]].
  - intros now k v Hget. unfold getCachedData in Hget.
    destruct (s !! k) as [e |] eqn:Hke; [| done].
    destruct (Hwf k e Hke) as [_ [x Hx]].
    assert (Hn : Number (expires e) = x) by (rewrite Hx; apply Number_of_toString).
    destruct (Number_lt (expires e) now) eqn:Hlt; [done |].
    cbn [fst] in Hget. injection Hget as <-.
    exists e, x. split; [done |]. split; [done |]. split; [done |].
    split; [done |]. unfold Number_lt in Hlt. rewrite Hn in Hlt.
    destruct x as [| [|] | t]; cbn [lt_now] in Hlt; [by left | done | by right; left |].
    right; right. exists t. split; [done |]. by apply Z.ltb_ge.
  - intros now k v x Hput. unfold cacheData in Hput.
    destruct x as [| [|] | t]; cbn [le_now] in Hput; [by left | done | by right; left |].
    right; right. exists t. split; [done |].
    destruct (Z.leb_spec t now); [done | lia].
  - intros now k e. apply getCachedData_sub.
  - intros now k e. apply clearExpiredCache_sub.
Qed.

End StoreInvariant.

Lemma cacheData_frame_witness :
  "a"%string <> "b"%string
  /\ (Storage.cacheData 0 "a" 1%nat (Storage.Int 10) ∅).2 !! "b"%string = (∅ : gmap string (Storage.Cache nat)) !! "b"%string.
Proof.
  split; [discriminate |].
  apply (cacheData_frame 0 "a" 1%nat (Storage.Int 10) ∅ 5 "b"). discriminate.
Defined.

Lemma cacheData_overwrite_witness :
  0 < 10 /\ 5 < 20
  /\ (Storage.getCachedData 15 "a"
        (Storage.cacheData 5 "a" 2%nat (Storage.Int 20) (Storage.cacheData 0 "a" 1%nat (Storage.Int 10) ∅).2).2).1
     = Some 2%nat.
Proof.
  split; [lia |]. split; [lia |].
  apply (cacheData_overwrite 0 5 "a" 1%nat 2%nat 10 20 ∅ 15); lia.
Defined.

Lemma sweep_transparent_to_reads_witness :
  15 <= 18
  /\ (Storage.getCachedData 18 "a"
        (Storage.clearExpiredCache 15 (Storage.cacheData 0 "a" 1%nat (Storage.Int 10) ∅).2)).1
     = (Storage.getCachedData 18 "a" (Storage.cacheData 0 "a" 1%nat (Storage.Int 10) ∅).2).1.
Proof.
  split; [lia |].
  apply (sweep_transparent_to_reads 15 18 "a" (Storage.cacheData 0 "a" 1%nat (Storage.Int 10) ∅).2). lia.
Defined.

Lemma served_entries_not_in_the_past_witness :
  Storage.reachable (Storage.cacheData 0 "k" "v"%string (Storage.Int 10) ∅).2
  /\ forall now k v,
       (Storage.getCachedData now k (Storage.cacheData 0 "k" "v"%string (Storage.Int 10) ∅).2).1
       = Some v ->
       exists e x, (Storage.cacheData 0 "k" "v"%string (Storage.Int 10) ∅).2 !! k = Some e
         /\ Storage.value e = v
         /\ Storage.expires e = Storage.toString x
         /\ Storage.Number (Storage.expires e) = x
         /\ (x = Storage.NaN \/ x = Storage.Infinity false
             \/ exists t, x = Storage.Int t /\ now <= t).
Proof.
  split; [apply sample_store_reachable |].
  apply (served_entries_not_in_the_past
           (Storage.cacheData 0 "k" "v"%string (Storage.Int 10) ∅).2).
  apply sample_store_reachable.
Defined.

Lemma reachable_entries_witness :
  Storage.reachable (Storage.cacheData 0 "k" "v"%string (Storage.Int 10) ∅).2
  /\ forall k e, (Storage.cacheData 0 "k" "v"%string (Storage.Int 10) ∅).2 !! k = Some e ->
       Storage.key e = k /\ 1 <= Storage.id e
       /\ exists x, Storage.expires e = Storage.toString x
                    /\ Storage.Number (Storage.expires e) = x
                    /\ x <> Storage.Infinity true.
Proof.
  split; [apply sample_store_reachable |].
  apply (reachable_entries (Storage.cacheData 0 "k" "v"%string (Storage.Int 10) ∅).2).
  apply sample_store_reachable.
Defined.

(** * Further properties of the clients and the routes *)

Section RouteFurther.

Import Wikipedia Routes.

Context (rt : Runtime) (w : World).

Ltac run := unfold mbind, M_bind, mret, M_ret, throw, try_catch, axios_get in *; simpl in *.

(** The search client leaves store and clock alone and issues at most
    the one geosearch request. *)
Lemma fetchLandmarks_state n s e we st :
  storage (fetchLandmarks rt w n s e we st).2 = storage st
  /\ ticks (fetchLandmarks rt w n s e we st).2 = ticks st.
Proof.
  unfold fetchLandmarks. destruct (_ || _); [done |]. run.
  by destruct (geosearch_api w (calls st) _ _ _) as [err | [results |]].
Qed.

Lemma fetchLandmarkDetails_state pageId st :
  (fetchLandmarkDetails w pageId st).2
  = {| storage := storage st; calls := calls st ++ [PageDetails pageId];
       ticks := ticks st |}.
Proof.
  unfold fetchLandmarkDetails. run.
  by destruct (details_api w (calls st) pageId) as [err | [page |]].
Qed.

(** The fan-out issues one detail request per landmark, in list order,
    and leaves store and clock alone. *)
Lemma Promise_all_with_details_state ls st :
  (Promise_all (with_details w) ls st).2
  = {| storage := storage st;
       calls := calls st ++ map (fun l => PageDetails (pageid l)) ls;
       ticks := ticks st |}.
Proof.
  revert st. induction ls as [| l rest IH]; intros st.
  - simpl. rewrite app_nil_r. by destruct st.
  - destruct (with_details_spec w l st) as (o & Ho & _).
    rewrite (Promise_all_cons_state _ _ _ _ _ _ Ho), IH.
    rewrite fetchLandmarkDetails_state. simpl. by rewrite <- app_assoc.
Qed.

(** The route on a request that passes the schema and misses the cache, in
    terms of the state [stg] the lookup leaves, when the search and the
    write of the result succeed. *)
Lemma get_landmarks_miss_full (q : BoundingBox) st stg ls st1 out st2 :
  boundsSchema q = true ->
  storage_getCachedData w (cacheKey rt q) st = (inr None, stg) ->
  fetchLandmarks rt w (north q) (south q) (east q) (west q) stg = (inr ls, st1) ->
  Promise_all (with_details w) ls st1 = (inr out, st2) ->
  clock w (S (ticks st2)) < clock w (ticks st2) + CACHE_EXPIRY_TIME ->
  get_landmarks rt w q st =
  (json 200 (LandmarkList out),
   {| storage :=
        <[cacheKey rt q :=
            {| Storage.id := Z.of_nat (size (storage st2)) + 1;
               Storage.key := cacheKey rt q;
               Storage.value := out;
               Storage.expires :=
                 Storage.toString (Storage.Int (clock w (ticks st2) + CACHE_EXPIRY_TIME)) |}]>
          (storage st2);
      calls := calls st2;
      ticks := S (S (ticks st2)) |}).
Proof.
  intros Hb Hmiss Hfetch Hrun Hclock.
  unfold get_landmarks, landmarks_try. rewrite Hb. cbn [negb].
  unfold mbind, M_bind, mret, M_ret.
  rewrite Hmiss, Hfetch, Hrun.
  unfold Date_now, storage_cacheData, Storage.cacheData, Storage.le_now.
  cbn [ticks storage calls fst snd].
  destruct (Z.leb_spec (clock w (ticks st2) + CACHE_EXPIRY_TIME) (clock w (S (ticks st2))));
    [lia | done].
Qed.

(** A live entry under the key of a request that passes the schema is
    returned as it is: status 200, no upstream request, the store
    untouched, one reading of the clock.  The order of north and south or
    of east and west plays no part. *)
Theorem landmarks_cache_hit (q : BoundingBox) st e :
  boundsSchema q = true ->
  storage st !! cacheKey rt q = Some e ->
  Storage.Number_lt (Storage.expires e) (clock w (ticks st)) = false ->
  get_landmarks rt w q st =
  (json 200 (LandmarkList (Storage.value e)),
   {| storage := storage st; calls := calls st; ticks := S (ticks st) |}).
Proof.
  intros Hb He Hlive. unfold get_landmarks, landmarks_try. rewrite Hb. cbn [negb].
  unfold mbind, M_bind, mret, M_ret, storage_getCachedData, Storage.getCachedData.
  rewrite He, Hlive. done.
Qed.

(** Two requests that pass the schema and share a cache key coalesce: when
    the first misses the cache and its search succeeds, and the clock stays
    within 15 minutes of the reading the expiry was computed from, the
    second gets the same list with status 200, issues no upstream request
    and leaves the store as the first left it. *)
Theorem landmarks_miss_then_hit (q q' : BoundingBox) st :
  boundsSchema q = true -> boundsSchema q' = true ->
  cacheKey rt q' = cacheKey rt q ->
  let lookup := storage_getCachedData w (cacheKey rt q) st in
  lookup.1 = inr None ->
  (exists ls, (fetchLandmarks rt w (north q) (south q) (east q) (west q) lookup.2).1 = inr ls) ->
  clock w (S (ticks lookup.2)) < clock w (ticks lookup.2) + CACHE_EXPIRY_TIME ->
  clock w (S (S (ticks lookup.2))) <= clock w (ticks lookup.2) + CACHE_EXPIRY_TIME ->
  let first := get_landmarks rt w q st in
  let second := get_landmarks rt w q' first.2 in
  status first.1 = 200
  /\ second.1 = first.1
  /\ calls second.2 = calls first.2
  /\ storage second.2 = storage first.2.
Proof.
  intros Hb Hb' Hkey lookup Hmiss [ls Hls] Hput Hget.
  destruct lookup as [res stg] eqn:Hlookup. cbn [fst snd] in *. subst res.
  destruct (fetchLandmarks rt w (north q) (south q) (east q) (west q) stg)
    as [res st1] eqn:Hfetch. cbn [fst] in Hls. subst res.
  destruct (Promise_all_with_details w ls st1) as (out & st2 & Hrun & _).
  pose proof (fetchLandmarks_state (north q) (south q) (east q) (west q) stg) as [Hs Ht].
  rewrite Hfetch in Hs, Ht. cbn [snd] in Hs, Ht.
  pose proof (Promise_all_with_details_state ls st1) as Hst2.
  rewrite Hrun in Hst2. cbn [snd] in Hst2.
  assert (ticks st2 = ticks stg) as Ht2 by (rewrite Hst2; cbn; done).
  subst lookup.
  rewrite (get_landmarks_miss_full q st stg ls st1 out st2) by (try done; by rewrite Ht2).
  cbn [fst snd].
  set (entry := {| Storage.id := Z.of_nat (size (storage st2)) + 1;
                   Storage.key := cacheKey rt q;
                   Storage.value := out;
                   Storage.expires :=
                     Storage.toString (Storage.Int (clock w (ticks st2) + CACHE_EXPIRY_TIME)) |}).
  assert (Hlive : Storage.Number_lt (Storage.expires entry) (clock w (S (S (ticks st2))))
                  = false).
  { subst entry. cbn [Storage.expires]. rewrite Number_lt_toString.
    apply Z.ltb_ge. rewrite Ht2. lia. }
  unfold get_landmarks, landmarks_try. rewrite Hb'. cbn [negb].
  unfold mbind, M_bind, mret, M_ret, storage_getCachedData, Storage.getCachedData.
  cbn [storage ticks calls]. rewrite Hkey, lookup_insert_eq, Hlive. done.
Qed.

(** On a miss, the requests of the route are the geosearch followed by
    one detail request per page found, in the order the geosearch listed
    them, whether the details arrive or not. *)
Theorem landmarks_miss_requests (q : BoundingBox) st stg results :
  boundsSchema q = true ->
  (north q <? south q)%float = false -> (east q <? west q)%float = false ->
  storage_getCachedData w (cacheKey rt q) st = (inr None, stg) ->
  let centerLat := ((north q + south q) / 2)%float in
  let centerLon := ((east q + west q) / 2)%float in
  let radius :=
    JsNumber.Math_min
      (JsNumber.Math_max (haversineDistance rt centerLat centerLon (north q) centerLon)
                         (haversineDistance rt centerLat centerLon centerLat (east q))
       * 1000)%float
      MAX_RADIUS in
  geosearch_api w (calls stg) centerLat centerLon radius = inr (Some results) ->
  calls (get_landmarks rt w q st).2
  = calls stg ++ Geosearch centerLat centerLon radius 50
                 :: map (fun r => PageDetails (geo_pageid r)) results.
Proof.
  intros Hb Hn He Hmiss centerLat centerLon radius Hgeo.
  unfold get_landmarks, landmarks_try. rewrite Hb. cbn [negb].
  unfold mbind at 1, M_bind at 1. rewrite Hmiss.
  unfold mbind at 1, M_bind at 1.
  assert (Hfetch : exists ls,
    fetchLandmarks rt w (north q) (south q) (east q) (west q) stg
    = (inr ls, {| storage := storage stg;
                  calls := calls stg ++ [Geosearch centerLat centerLon radius 50];
                  ticks := ticks stg |})
    /\ map pageid ls = map geo_pageid results).
  { unfold fetchLandmarks. rewrite Hn, He. cbn [orb].
    unfold mbind, M_bind, mret, M_ret, axios_get. cbn zeta.
    fold centerLat centerLon radius. rewrite Hgeo.
    eexists. split; [reflexivity |]. by rewrite map_map. }
  destruct Hfetch as (ls & -> & Hids).
  unfold mbind at 1, M_bind at 1.
  pose proof (Promise_all_with_details_state ls
    {| storage := storage stg;
       calls := calls stg ++ [Geosearch centerLat centerLon radius 50];
       ticks := ticks stg |}) as Hst.
  destruct (Promise_all_with_details w ls
    {| storage := storage stg;
       calls := calls stg ++ [Geosearch centerLat centerLon radius 50];
       ticks := ticks stg |}) as (out & st2 & Hrun & _).
  rewrite Hrun in Hst |- *. cbn [snd] in Hst.
  assert (calls st2 = calls stg ++ Geosearch centerLat centerLon radius 50
                        :: map (fun r => PageDetails (geo_pageid r)) results) as Hcalls.
  { rewrite Hst. cbn [calls]. rewrite <- app_assoc. cbn [app]. do 2 f_equal.
    rewrite <- (map_map geo_pageid PageDetails), <- Hids. by rewrite map_map. }
  unfold mbind, M_bind, mret, M_ret, Date_now, storage_cacheData.
  cbn [fst snd calls storage ticks].
  by destruct (Storage.cacheData _ _ _ _ _).1.
Qed.

(** When the geosearch request is rejected the route answers 500, has
    issued that one request, and caches nothing: the store is as the
    lookup left it. *)
Theorem landmarks_upstream_failure (q : BoundingBox) st stg err :
  boundsSchema q = true ->
  (north q <? south q)%float = false -> (east q <? west q)%float = false ->
  storage_getCachedData w (cacheKey rt q) st = (inr None, stg) ->
  let centerLat := ((north q + south q) / 2)%float in
  let centerLon := ((east q + west q) / 2)%float in
  let radius :=
    JsNumber.Math_min
      (JsNumber.Math_max (haversineDistance rt centerLat centerLon (north q) centerLon)
                         (haversineDistance rt centerLat centerLon centerLat (east q))
       * 1000)%float
      MAX_RADIUS in
  geosearch_api w (calls stg) centerLat centerLon radius = inl err ->
  get_landmarks rt w q st =
  (json 500 (Message "Failed to fetch landmarks"),
   {| storage := storage stg;
      calls := calls stg ++ [Geosearch centerLat centerLon radius 50];
      ticks := ticks stg |}).
Proof.
  intros Hb Hn He Hmiss centerLat centerLon radius Hgeo.
  unfold get_landmarks, landmarks_try. rewrite Hb. cbn [negb].
  unfold mbind at 1, M_bind at 1. rewrite Hmiss.
  unfold mbind at 1, M_bind at 1.
  unfold fetchLandmarks. rewrite Hn, He. cbn [orb].
  unfold mbind, M_bind, mret, M_ret, axios_get. cbn zeta.
  fold centerLat centerLon radius. by rewrite Hgeo.
Qed.

End RouteFurther.

Section ClientFurther.

Import Wikipedia Routes.

Context (rt : Runtime) (w : World).

(** [Math.min(a, MAX_RADIUS)] is never above [MAX_RADIUS]. *)
Lemma Math_min_cap (a : float) :
  (MAX_RADIUS <? JsNumber.Math_min a MAX_RADIUS)%float = false.
Proof.
  unfold JsNumber.Math_min.
  destruct (is_nan a || is_nan MAX_RADIUS); [reflexivity |].
  destruct (a <? MAX_RADIUS)%float eqn:E1; [by apply ltb_asym in E1 as [? _] |].
  destruct (MAX_RADIUS <? a)%float eqn:E2; [reflexivity |].
  destruct (get_sign a); [exact E2 | reflexivity].
Qed.

(** A box with north not below south and east not below west passes the
    guard of the search client. *)
Lemma valid_box_accepted (b : BoundingBox) :
  valid_box b ->
  (north b <? south b)%float = false /\ (east b <? west b)%float = false.
Proof. intros (_ & Hn & He). split; by apply leb_not_ltb. Qed.

(** For a valid bounding box the guard of the search client passes and
    the client issues exactly one request: a geosearch for at most 50
    pages whose radius is not above [MAX_RADIUS] = 10000 metres. *)
Theorem fetchLandmarks_one_capped_request (b : BoundingBox) st :
  valid_box b ->
  exists centerLat centerLon radius,
    issued st (fetchLandmarks rt w (north b) (south b) (east b) (west b) st).2
    = [Geosearch centerLat centerLon radius 50]
    /\ (MAX_RADIUS <? radius)%float = false.
Proof.
  intros Hv. destruct (valid_box_accepted b Hv) as [Hn He].
  eexists _, _, _. split; [| apply Math_min_cap].
  apply issued_app. unfold fetchLandmarks. rewrite Hn, He. cbn [orb].
  unfold mbind, M_bind, mret, M_ret, axios_get. cbn zeta.
  by destruct (geosearch_api w (calls st) _ _ _) as [err | [results |]].
Qed.

(** A landmark request with a parameter that is missing or unparsable
    (NaN after [parseFloat]), or above its maximum, or below its minimum,
    is answered 500 "Failed to fetch landmarks" before the cache is read
    or any request is issued: the server state is unchanged. *)
Theorem landmarks_rejects_bad_numbers (q : BoundingBox) st :
  (north q = nan \/ (90 <? north q)%float = true \/ (north q <? -90)%float = true)
  \/ (south q = nan \/ (90 <? south q)%float = true \/ (south q <? -90)%float = true)
  \/ (east q = nan \/ (180 <? east q)%float = true \/ (east q <? -180)%float = true)
  \/ (west q = nan \/ (180 <? west q)%float = true \/ (west q <? -180)%float = true) ->
  get_landmarks rt w q st = (json 500 (Message "Failed to fetch landmarks"), st).
Proof.
  intros H.
  assert (Hrange : forall lo hi x,
            x = nan \/ (hi <? x)%float = true \/ (x <? lo)%float = true ->
            in_range lo hi x = false).
  { intros lo hi x [-> | [Hx | Hx]]; unfold in_range.
    - replace (nan <=? hi)%float with false; [apply andb_false_r |].
      symmetry. rewrite leb_spec. reflexivity.
    - apply ltb_asym in Hx as [_ ->]. apply andb_false_r.
    - by apply ltb_asym in Hx as [_ ->]. }
  assert (Hb : boundsSchema q = false).
  { unfold boundsSchema. destruct H as [H | [H | [H | H]]];
      rewrite (Hrange _ _ _ H); by rewrite ?andb_false_r. }
  unfold get_landmarks, landmarks_try. by rewrite Hb.
Qed.

(** *** The primary place search *)

Lemma trimEnd_empty s : trimEnd s = ""%string <-> blank s = true.
Proof.
  induction s as [| c s IH]; [done |]. simpl.
  destruct (trimEnd s) as [| c' t] eqn:E.
  - destruct (is_whitespace c); simpl; [tauto |]. split; discriminate.
  - split; [discriminate |]. intros H. apply andb_true_iff in H as [_ H].
    apply IH in H. discriminate.
Qed.

Lemma blank_trimStart_eq s : blank (trimStart s) = blank s.
Proof.
  induction s as [| c s IH]; [done |]. simpl.
  destruct (is_whitespace c) eqn:E; [done |]. simpl. by rewrite E.
Qed.

(** The guard of [searchWikipedia] fires exactly on blank queries. *)
Lemma empty_guard_blank q :
  (String.eqb q "" || Nat.eqb (String.length (trim q)) 0) = blank q.
Proof.
  destruct (blank q) eqn:B.
  - rewrite (blank_trim q B). apply orb_true_r.
  - apply orb_false_iff. split.
    + apply String.eqb_neq. intros ->. discriminate.
    + apply Nat.eqb_neq. intros Hlen.
      assert (trim q = ""%string) as Ht by (by destruct (trim q)).
      apply trimEnd_empty in Ht. rewrite blank_trimStart_eq in Ht. congruence.
Qed.

(** Every way a primary search can end: what it returns, and which
    requests it has added. *)
Lemma searchWikipedia_outcome q st :
  let r := searchWikipedia w q st in
  storage r.2 = storage st /\ ticks r.2 = ticks st
  /\ ((blank q = true /\ r.1 = inl (Error "Search query cannot be empty.")
       /\ calls r.2 = calls st)
      \/ (blank q = false /\ calls r.2 = calls st ++ [Search q 5]
          /\ (r.1 = inr [] \/ exists err, r.1 = inl err))
      \/ (blank q = false
          /\ exists first rest,
               search_api w (calls st) q = inr (Some (first :: rest))
               /\ calls r.2 = calls st ++ [Search q 5; Coordinates (hit_pageid first)]
               /\ (r.1 = inr [] \/ (exists err, r.1 = inl err)
                   \/ exists name la lo,
                        r.1 = inr [ {| geo_pageid := hit_pageid first; geo_ns := 0;
                                       geo_title := name; geo_lat := la; geo_lon := lo;
                                       geo_dist := 0%float; geo_primary := "true" |} ]))).
Proof.
  unfold searchWikipedia. rewrite empty_guard_blank.
  destruct (blank q); [by auto 10 |].
  unfold mbind, M_bind, mret, M_ret, axios_get. cbn [fst snd].
  destruct (search_api w (calls st) q) as [err | [[| first rest] |]] eqn:Hs;
    cbn [fst snd storage ticks calls]; try (by eauto 10).
  do 2 (split; [by destruct (coordinates_api w _ _) as [? | [[? [|? ? ]] |]] |]).
  right. right. split; [done |]. exists first, rest. split; [done |].
  destruct (coordinates_api w _ _) as [err | [[name [| c cs]] |]];
    cbn [fst snd storage ticks calls coordinates]; rewrite <- app_assoc;
    (split; [done |]); eauto 10.
Qed.

(** The primary place search issues a request exactly when the query has
    a character that is not white space, and it returns at most one
    match (though it asks for five), at distance 0. *)
Theorem searchWikipedia_at_most_one q st :
  (blank q = true <-> calls (searchWikipedia w q st).2 = calls st)
  /\ (length (issued st (searchWikipedia w q st).2) <= 2)%nat
  /\ forall found, (searchWikipedia w q st).1 = inr found ->
       (length found <= 1)%nat
       /\ Forall (fun r => geo_dist r = 0%float /\ geo_ns r = 0) found.
Proof.
  destruct (searchWikipedia_outcome q st) as (_ & _ & H). cbn zeta in H.
  assert (Happ : forall (l : list Call), calls st ++ l = calls st -> l = []).
  { intros l Hl. apply (app_inv_head (calls st)). by rewrite app_nil_r. }
  destruct H as [(B & Hr & Hc) | [(B & Hc & Hr) | (B & first & rest & _ & Hc & Hr)]].
  - split; [by split |]. split.
    + rewrite (issued_app st _ []); [simpl; lia | by rewrite app_nil_r].
    + intros found Hf. congruence.
  - split; [| split].
    + rewrite B, Hc. split; [done |]. intros Hl. by apply Happ in Hl.
    + rewrite (issued_app st _ _ Hc). simpl. lia.
    + intros found Hf. destruct Hr as [Hr | [err Hr]]; rewrite Hr in Hf; [| done].
      injection Hf as <-. split; [simpl; lia | constructor].
  - split; [| split].
    + rewrite B, Hc. split; [done |]. intros Hl. by apply Happ in Hl.
    + rewrite (issued_app st _ _ Hc). simpl. lia.
    + intros found Hf.
      destruct Hr as [Hr | [[err Hr] | (name & la & lo & Hr)]]; rewrite Hr in Hf;
        try done; injection Hf as <-.
      * split; [simpl; lia | constructor].
      * split; [simpl; lia |]. by repeat constructor.
Qed.

(** *** The geocode route *)

(** The geocode route never reads or writes the cache and never reads
    the clock, whatever the query and whatever the upstream answers. *)
Theorem geocode_never_caches (query : option string) st :
  storage (get_geocode rt w query st).2 = storage st
  /\ ticks (get_geocode rt w query st).2 = ticks st.
Proof.
  destruct query as [q |]; [| done].
  destruct (Nat.leb 1 (String.length q)) eqn:Hlen.
  - apply Nat.leb_le in Hlen. rewrite (get_geocode_spec rt w q st Hlen).
    destruct (searchWikipedia_outcome q st) as (Hs & Ht & _). cbn zeta in *.
    by destruct (searchWikipedia w q st).1 as [err | [| first rest]].
  - unfold get_geocode, geocode_try, querySchema. rewrite Hlen. done.
Qed.

(** A geocode request costs at most three upstream requests, always in
    the order text search, coordinates, Nominatim; the response is one of
    200, 404 and 500. *)
Theorem geocode_request_budget (query : option string) st :
  let r := get_geocode rt w query st in
  (exists q pid,
     issued st r.2 = []
     \/ (query = Some q
         /\ (issued st r.2 = [Nominatim q 1]
             \/ issued st r.2 = [Search q 5; Nominatim q 1]
             \/ issued st r.2 = [Search q 5; Coordinates pid]
             \/ issued st r.2 = [Search q 5; Coordinates pid; Nominatim q 1])))
  /\ (status r.1 = 200 \/ status r.1 = 404 \/ status r.1 = 500).
Proof.
  cbn zeta. destruct query as [q |].
  2:{ split; [| by auto]. exists ""%string, 0. left.
      apply issued_app. by rewrite app_nil_r. }
  destruct (Nat.leb 1 (String.length q)) eqn:Hlen.
  2:{ unfold get_geocode, geocode_try, querySchema. rewrite Hlen.
      split; [| by auto]. exists q, 0. left. apply issued_app. by rewrite app_nil_r. }
  apply Nat.leb_le in Hlen. rewrite (get_geocode_spec rt w q st Hlen).
  destruct (searchWikipedia_outcome q st) as (_ & _ & H). cbn zeta in *.
  assert (Hstatus : forall (x : HttpResponse),
    x = match nominatim_api w (calls (searchWikipedia w q st).2) q with
        | inl _ => json 500 (Message "Failed to geocode location")
        | inr (Some (location :: _)) =>
            json 200 (GeocodeResult (parseFloat rt (place_lat location))
                                    (parseFloat rt (place_lon location))
                                    (display_name location))
        | inr (Some []) | inr None => json 404 (Message "Location not found")
        end -> status x = 200 \/ status x = 404 \/ status x = 500).
  { intros x ->. destruct (nominatim_api w _ q) as [? | [[| ? ?] |]]; cbn; auto. }
  destruct H as [(B & Hr & Hc) | [(B & Hc & Hr) | (B & first & rest & _ & Hc & Hr)]].
  - rewrite Hr. cbn [fst snd]. split; [| by apply Hstatus].
    exists q, 0. right. split; [done |]. left.
    apply issued_app. cbn [calls]. by rewrite Hc.
  - split.
    + exists q, 0. right. split; [done |]. right. left.
      destruct Hr as [Hr | [err Hr]]; rewrite Hr; cbn [fst snd];
        apply issued_app; cbn [calls]; by rewrite Hc, <- app_assoc.
    + destruct Hr as [Hr | [err Hr]]; rewrite Hr; by apply Hstatus.
  - split.
    + exists q, (hit_pageid first). right. split; [done |].
      destruct Hr as [Hr | [[err Hr] | (name & la & lo & Hr)]]; rewrite Hr; cbn [fst snd].
      * do 3 right. apply issued_app. cbn [calls]. by rewrite Hc, <- app_assoc.
      * do 3 right. apply issued_app. cbn [calls]. by rewrite Hc, <- app_assoc.
      * right. right. left. by apply issued_app.
    + destruct Hr as [Hr | [[err Hr] | (name & la & lo & Hr)]]; rewrite Hr;
        try (by apply Hstatus). cbn. auto.
Qed.

End ClientFurther.

(** * The client: bookmarks, map styles, the title filter *)

Section BookmarkProperties.

Import Bookmarks.

Implicit Types (bs prev : list Landmark) (l : Landmark) (i : Z).

Lemma isBookmarked_false bs i :
  Bookmarks.isBookmarked bs i = false <-> ~ In i (map pageid bs).
Proof.
  unfold Bookmarks.isBookmarked. induction bs as [| b bs IH]; simpl; [tauto |].
  rewrite orb_false_iff, IH, Z.eqb_neq. tauto.
Qed.

Lemma isBookmarked_app bs bs' i :
  Bookmarks.isBookmarked (bs ++ bs') i
  = Bookmarks.isBookmarked bs i || Bookmarks.isBookmarked bs' i.
Proof. unfold Bookmarks.isBookmarked. apply existsb_app. Qed.

Lemma isBookmarked_remove bs i j :
  Bookmarks.isBookmarked (removeBookmark j bs) i
  = Bookmarks.isBookmarked bs i && negb (i =? j).
Proof.
  unfold Bookmarks.isBookmarked, removeBookmark.
  induction bs as [| b bs IH]; simpl; [done |].
  destruct (Z.eqb_spec (pageid b) j) as [Hj | Hj]; simpl.
  - rewrite IH. destruct (Z.eqb_spec (pageid b) i) as [Hi | Hi]; simpl; [| done].
    replace (i =? j) with true by (symmetry; apply Z.eqb_eq; congruence).
    simpl. apply andb_false_r.
  - rewrite IH. destruct (Z.eqb_spec (pageid b) i) as [Hi | Hi]; simpl; [| done].
    replace (i =? j) with false by (symmetry; apply Z.eqb_neq; congruence).
    done.
Qed.

Lemma removeBookmark_absent bs i :
  Bookmarks.isBookmarked bs i = false -> removeBookmark i bs = bs.
Proof.
  unfold Bookmarks.isBookmarked, removeBookmark.
  induction bs as [| b bs IH]; simpl; [done |].
  intros H. apply orb_false_iff in H as [Hb Hbs]. rewrite Hb. simpl.
  by rewrite IH.
Qed.

Lemma removeBookmark_ids bs i :
  map pageid (removeBookmark i bs) = List.filter (fun j => negb (j =? i)) (map pageid bs).
Proof.
  unfold removeBookmark. induction bs as [| b bs IH]; simpl; [done |].
  destruct (negb (pageid b =? i)); simpl; by rewrite IH.
Qed.

(** Applied to the state they were rendered from, adding, removing and
    toggling keep the page ids of the bookmarks pairwise distinct. *)
Theorem bookmarks_stay_unique bs l i :
  List.NoDup (map pageid bs) ->
  List.NoDup (map pageid (addBookmark bs l bs))
  /\ List.NoDup (map pageid (removeBookmark i bs))
  /\ List.NoDup (map pageid (toggleBookmark bs l bs)).
Proof.
  intros Hnd.
  assert (Hrem : forall j, List.NoDup (map pageid (removeBookmark j bs))).
  { intros j. rewrite removeBookmark_ids. by apply List.NoDup_filter. }
  assert (Hadd : List.NoDup (map pageid (addBookmark bs l bs))).
  { unfold addBookmark. destruct (Bookmarks.isBookmarked bs (pageid l)) eqn:E; [done |].
    simpl. rewrite map_app. simpl.
    apply isBookmarked_false in E.
    apply NoDup_ListNoDup, NoDup_app. split; [by apply NoDup_ListNoDup |]. split.
    - intros x Hx Hx'. apply list_elem_of_In in Hx. apply list_elem_of_singleton in Hx'.
      by subst.
    - apply NoDup_singleton. }
  split; [done |]. split; [done |].
  unfold toggleBookmark. by destruct (Bookmarks.isBookmarked bs (pageid l)).
Qed.

(** Toggling flips whether the landmark is bookmarked and changes that
    of no other page. *)
Theorem toggleBookmark_flips bs l i :
  Bookmarks.isBookmarked (toggleBookmark bs l bs) (pageid l)
  = negb (Bookmarks.isBookmarked bs (pageid l))
  /\ (i <> pageid l ->
      Bookmarks.isBookmarked (toggleBookmark bs l bs) i = Bookmarks.isBookmarked bs i).
Proof.
  unfold toggleBookmark, addBookmark.
  destruct (Bookmarks.isBookmarked bs (pageid l)) eqn:E; simpl.
  - rewrite !isBookmarked_remove, Z.eqb_refl. split; [apply andb_false_r |].
    intros Hi. apply Z.eqb_neq in Hi. rewrite Hi. apply andb_true_r.
  - rewrite !isBookmarked_app, E. unfold Bookmarks.isBookmarked at 1 3. simpl.
    rewrite Z.eqb_refl. split; [done |].
    intros Hi. replace (pageid l =? i) with false; [by rewrite !orb_false_r |].
    symmetry. apply Z.eqb_neq. congruence.
Qed.

(** Removing undoes adding: for a landmark that is not bookmarked, adding
    and then removing it gives back the list, and so does toggling twice;
    removing a page that is not bookmarked changes nothing. *)
Theorem add_then_remove bs l :
  Bookmarks.isBookmarked bs (pageid l) = false ->
  removeBookmark (pageid l) (addBookmark bs l bs) = bs
  /\ toggleBookmark (toggleBookmark bs l bs) l (toggleBookmark bs l bs) = bs
  /\ removeBookmark (pageid l) bs = bs.
Proof.
  intros E.
  assert (Hadd : addBookmark bs l bs = bs ++ [marked l]).
  { unfold addBookmark. by rewrite E. }
  assert (Hrem : removeBookmark (pageid l) (bs ++ [marked l]) = bs).
  { unfold removeBookmark. rewrite List.filter_app. simpl. rewrite Z.eqb_refl. simpl.
    rewrite app_nil_r. by apply removeBookmark_absent. }
  split; [by rewrite Hadd |]. split; [| by apply removeBookmark_absent].
  assert (Htog : toggleBookmark bs l bs = bs ++ [marked l]).
  { unfold toggleBookmark. by rewrite E. }
  rewrite Htog. unfold toggleBookmark.
  rewrite isBookmarked_app. unfold Bookmarks.isBookmarked at 2. simpl.
  rewrite Z.eqb_refl, orb_true_r. exact Hrem.
Qed.

(** The uniqueness test of [addBookmark] reads the bookmarks of the
    render, not the state the update is applied to: two adds of a new
    landmark issued from the same render both append, and the page ends up
    in the list twice. *)
Theorem stale_add_duplicates bs l :
  Bookmarks.isBookmarked bs (pageid l) = false ->
  addBookmark bs l (addBookmark bs l bs) = bs ++ [marked l; marked l]
  /\ ~ List.NoDup (map pageid (addBookmark bs l (addBookmark bs l bs))).
Proof.
  intros E. unfold addBookmark. rewrite E. simpl.
  rewrite <- app_assoc. split; [done |].
  rewrite map_app. simpl. intros Hnd.
  apply NoDup_ListNoDup, NoDup_app in Hnd as (_ & _ & Hnd).
  apply NoDup_cons in Hnd as [Hnd _]. apply Hnd. by left.
Qed.

End BookmarkProperties.

Section DisplayProperties.

Import MapStyles TitleFilter.

(** Whatever id is stored as the preference, a style of the table is
    selected: the one with that id, or Streets when no style has it. *)
Theorem selectedStyle_in_table (selectedStyleId : string) :
  exists style,
    selectedStyle selectedStyleId = Some style
    /\ In style MAP_STYLES
    /\ (style_id style = selectedStyleId
        \/ (~ In selectedStyleId (map style_id MAP_STYLES)
            /\ style_id style = "streets"%string)).
Proof.
  unfold selectedStyle, MAP_STYLES. cbn [List.find style_id].
  repeat (match goal with
          | |- context [String.eqb ?a selectedStyleId] =>
              destruct (String.eqb_spec a selectedStyleId)
          end;
          [eexists; split; [reflexivity |]; split; [cbn [In]; tauto | by left] |]).
  eexists. split; [reflexivity |]. split; [cbn [In]; tauto |]. right.
  split; [| done]. cbn [map In style_id]. intros H. decompose [or] H; congruence.
Qed.

Lemma lower_idempotent c : lower (lower c) = lower c.
Proof. destruct c as [[] [] [] [] [] [] [] []]; reflexivity. Qed.

Lemma toLowerCase_idempotent s : toLowerCase (toLowerCase s) = toLowerCase s.
Proof. induction s as [| c s IH]; simpl; [done |]. by rewrite lower_idempotent, IH. Qed.

Lemma includes_empty s : includes s "" = true.
Proof. by destruct s. Qed.

Lemma filter_ext_all {A} (f g : A -> bool) (l : list A) :
  (forall x, f x = g x) -> List.filter f l = List.filter g l.
Proof. intros H. induction l as [| x l IH]; simpl; [done |]. by rewrite H, IH. Qed.

(** The title filter of the landmark panel and that of the bookmarks
    panel select the same entries; an empty query keeps every entry; and
    the case of the query does not matter. *)
Theorem title_filter_case_insensitive (searchQuery : string) (ls : list Landmark) :
  filteredLandmarks searchQuery ls = filteredBookmarks searchQuery ls
  /\ filteredLandmarks "" ls = ls
  /\ filteredLandmarks (toLowerCase searchQuery) ls = filteredLandmarks searchQuery ls.
Proof.
  split; [| split].
  - unfold filteredLandmarks, filteredBookmarks. apply filter_ext_all. intros x.
    destruct (String.eqb_spec searchQuery "") as [-> | Hne]; [| done].
    simpl. by rewrite includes_empty.
  - unfold filteredLandmarks. simpl.
    induction ls as [| x ls IH]; simpl; [done |]. by rewrite IH.
  - unfold filteredLandmarks. apply filter_ext_all. intros x.
    rewrite toLowerCase_idempotent. f_equal.
    by destruct searchQuery.
Qed.

End DisplayProperties.

(** ** The further properties on the sample inputs *)

Lemma landmarks_cache_hit_witness :
  let warm := (Routes.get_landmarks sample_runtime sample_world london st0).2 in
  boundsSchema london = true
  /\ calls (Routes.get_landmarks sample_runtime sample_world london warm).2 = calls warm.
Proof.
  split; [reflexivity |].
  destruct (storage (Routes.get_landmarks sample_runtime sample_world london st0).2
              !! cacheKey sample_runtime london) as [e |] eqn:E.
  - rewrite (landmarks_cache_hit sample_runtime sample_world london _ e);
      [reflexivity | reflexivity | exact E |].
    vm_compute in E. injection E as <-. vm_compute. reflexivity.
  - vm_compute in E. discriminate E.
Defined.

Lemma landmarks_miss_then_hit_witness :
  let first := Routes.get_landmarks sample_runtime sample_world london st0 in
  let second := Routes.get_landmarks sample_runtime sample_world london first.2 in
  Routes.status first.1 = 200
  /\ second.1 = first.1
  /\ calls second.2 = calls first.2
  /\ storage second.2 = storage first.2.
Proof.
  apply (landmarks_miss_then_hit sample_runtime sample_world london london st0);
    try reflexivity.
  - eexists. vm_compute. reflexivity.
  - vm_compute. discriminate.
Defined.

Lemma landmarks_miss_requests_witness :
  boundsSchema london = true
  /\ calls (Routes.get_landmarks sample_runtime sample_world london st0).2
     = [Geosearch 51.375 (-0.125) 10000 50; PageDetails 1; PageDetails 2; PageDetails 3].
Proof.
  split; [reflexivity |].
  exact (landmarks_miss_requests sample_runtime sample_world london st0 st0
           [geo_result 1 "Tower"; geo_result 2 "Bridge"; geo_result 3 "Stub"]
           eq_refl eq_refl eq_refl eq_refl eq_refl).
Defined.

Lemma landmarks_upstream_failure_witness :
  boundsSchema london = true
  /\ Routes.get_landmarks sample_runtime offline_world london st0
     = (Routes.json 500 (Routes.Message "Failed to fetch landmarks"),
        {| storage := ∅; calls := [Geosearch 51.375 (-0.125) 10000 50]; ticks := 0 |}).
Proof.
  split; [reflexivity |].
  exact (landmarks_upstream_failure sample_runtime offline_world london st0 st0
           (AxiosError "Network Error") eq_refl eq_refl eq_refl eq_refl eq_refl).
Defined.

Lemma fetchLandmarks_one_capped_request_witness :
  valid_box london
  /\ exists centerLat centerLon radius,
       issued st0 (Wikipedia.fetchLandmarks sample_runtime sample_world
                     (north london) (south london) (east london) (west london) st0).2
       = [Geosearch centerLat centerLon radius 50]
       /\ (Wikipedia.MAX_RADIUS <? radius)%float = false.
Proof.
  split; [repeat split |].
  apply (fetchLandmarks_one_capped_request sample_runtime sample_world london st0).
  repeat split.
Defined.

Lemma landmarks_rejects_bad_numbers_witness :
  Routes.get_landmarks sample_runtime sample_world
    {| north := nan; south := 51.25%float; east := 0%float; west := (-0.25)%float |} st0
  = (Routes.json 500 (Routes.Message "Failed to fetch landmarks"), st0).
Proof.
  apply (landmarks_rejects_bad_numbers sample_runtime sample_world
           {| north := nan; south := 51.25%float; east := 0%float; west := (-0.25)%float |} st0).
  left. left. reflexivity.
Defined.

Lemma bookmarks_stay_unique_witness :
  List.NoDup (map pageid [tower])
  /\ List.NoDup (map pageid (Bookmarks.toggleBookmark [tower] tower [tower])).
Proof.
  assert (H : List.NoDup (map pageid [tower])).
  { simpl. constructor; [intros [] | constructor]. }
  split; [exact H |].
  apply (bookmarks_stay_unique [tower] tower 1 H).
Defined.

Lemma add_then_remove_witness :
  Bookmarks.isBookmarked [] (pageid tower) = false
  /\ Bookmarks.removeBookmark (pageid tower) (Bookmarks.addBookmark [] tower []) = [].
Proof.
  split; [reflexivity |].
  apply (add_then_remove [] tower). reflexivity.
Defined.

Lemma stale_add_duplicates_witness :
  Bookmarks.isBookmarked [] (pageid tower) = false
  /\ Bookmarks.addBookmark [] tower (Bookmarks.addBookmark [] tower [])
     = [Bookmarks.marked tower; Bookmarks.marked tower].
Proof.
  split; [reflexivity |].
  apply (stale_add_duplicates [] tower). reflexivity.
Defined.

(** * The cache key, exactly *)

Section KeyProperties.

Import JsNumber KeyText.

Lemma all_chars_app p a b : all_chars p (a ++ b) = all_chars p a && all_chars p b.
Proof. induction a as [| c a IH]; simpl; [reflexivity |]. rewrite IH. apply andb_assoc. Qed.

Lemma string_length_app (a b : string) : String.length (a ++ b) = (String.length a + String.length b)%nat.
Proof. induction a as [| c a IH]; simpl; [reflexivity |]. now rewrite IH. Qed.

Lemma app_inv_head_string (a b c : string) : (a ++ b = a ++ c)%string -> b = c.
Proof. induction a as [| x a IH]; simpl; [auto |]. intros [= H]. auto. Qed.

Lemma app_inj_length (a b a' b' : string) :
  String.length a = String.length a' -> (a ++ b = a' ++ b')%string -> a = a' /\ b = b'.
Proof.
  revert a'. induction a as [| x a IH]; intros [| x' a']; simpl; try discriminate; [auto |].
  intros [= Hl] [= -> H]. destruct (IH a' Hl H) as [-> ->]. auto.
Qed.

(** Cutting a string at position [n]. *)
Lemma substring_cut n s :
  (n <= String.length s)%nat ->
  exists a b, s = (a ++ b)%string /\ String.length a = n
              /\ substring 0 n s = a /\ substring n (String.length b) s = b.
Proof.
  revert s. induction n as [| n IH]; intros s Hn.
  - exists EmptyString, s. simpl. repeat split.
    + now destruct s.
    + induction s as [| c s IHs]; simpl; [reflexivity |]. f_equal.
      apply IHs. simpl; lia.
  - destruct s as [| c s]; [simpl in Hn; lia |]. simpl in Hn.
    destruct (IH s ltac:(lia)) as (a & b & -> & Hl & H0 & H1).
    exists (String c a), b. simpl. repeat split; [now rewrite Hl | now rewrite H0 | exact H1].
Qed.

Lemma digits_uint_all d : all_chars is_digit (NilEmpty.string_of_uint d) = true.
Proof. induction d; simpl; auto. Qed.

Lemma digits_all n : all_chars is_digit (digits n) = true.
Proof.
  unfold digits, NilZero.string_of_uint.
  destruct (N.to_uint (Z.to_N n)); try reflexivity; apply digits_uint_all.
Qed.

Lemma zeros_all k : all_chars is_digit (zeros k) = true.
Proof. induction k; simpl; auto. Qed.

Lemma zeros_length k : String.length (zeros k) = k.
Proof. induction k; simpl; auto. Qed.

Lemma to_uint_normal n : Decimal.unorm (N.to_uint n) = N.to_uint n.
Proof. rewrite <- (DecimalN.Unsigned.to_of (N.to_uint n)). now rewrite DecimalN.Unsigned.of_to. Qed.

Lemma digits_nonempty n : digits n <> EmptyString.
Proof.
  unfold digits, NilZero.string_of_uint.
  destruct (N.to_uint (Z.to_N n)); simpl; discriminate.
Qed.

Lemma digits_leading_zero n rest : digits n = String "0" rest -> rest = EmptyString.
Proof.
  unfold digits, NilZero.string_of_uint.
  pose proof (to_uint_normal (Z.to_N n)) as Hn.
  destruct (N.to_uint (Z.to_N n)) as [| d | d | d | d | d | d | d | d | d | d] eqn:E;
    simpl; try discriminate.
  all: intros [= <-].
  rewrite unorm_D0 in Hn. unfold Decimal.unorm in Hn.
  destruct (Decimal.nzhead d) eqn:Hz; try (now apply nzhead_nonzero in Hz); try discriminate.
  injection Hn as <-. reflexivity.
Qed.

Lemma digits_inj n n' : 0 <= n -> 0 <= n' -> digits n = digits n' -> n = n'.
Proof.
  intros Hn Hn' H. unfold digits in H.
  assert (forall m, N.to_uint m <> Decimal.Nil) as Hnil.
  { intros m. rewrite <- to_uint_normal. apply unorm_nonnil. }
  assert (NilZero.uint_of_string (NilZero.string_of_uint (N.to_uint (Z.to_N n)))
          = NilZero.uint_of_string (NilZero.string_of_uint (N.to_uint (Z.to_N n')))) as H'
    by now rewrite H.
  rewrite !NilZero.usu in H' by apply Hnil.
  injection H' as H'. apply DecimalN.Unsigned.to_uint_inj in H'. lia.
Qed.

Lemma padded_length f n : (f + 1 <= String.length (padded f n))%nat
  /\ String.length (padded f n) = Nat.max (String.length (digits n)) (f + 1).
Proof.
  unfold padded. destruct (Nat.leb_spec (String.length (digits n)) f).
  - rewrite string_length_app, zeros_length. lia.
  - lia.
Qed.

Lemma padded_all f n : all_chars is_digit (padded f n) = true.
Proof.
  unfold padded. destruct (Nat.leb _ _); [| apply digits_all].
  now rewrite all_chars_app, zeros_all, digits_all.
Qed.

Lemma zeros_app_inv k1 k2 m1 m2 :
  (zeros k1 ++ m1 = zeros k2 ++ m2)%string -> (k1 <= k2)%nat ->
  m1 = (zeros (k2 - k1) ++ m2)%string.
Proof.
  revert k2. induction k1 as [| k1 IH]; intros k2 H Hle.
  - simpl in H. now rewrite Nat.sub_0_r.
  - destruct k2 as [| k2]; [lia |]. simpl in H. injection H as H.
    simpl. apply IH; [exact H | lia].
Qed.

Lemma padded_inj f n n' : 0 <= n -> 0 <= n' -> padded f n = padded f n' -> n = n'.
Proof.
  intros Hn Hn' H. apply digits_inj; try assumption.
  assert (Hlz : forall k a b, (0 < k)%nat -> digits a = (zeros k ++ digits b)%string -> False).
  { intros k a b Hk E. destruct k as [| k]; [lia |]. simpl in E.
    apply digits_leading_zero in E.
    pose proof (digits_nonempty b) as Hb.
    destruct k; simpl in E; [congruence | discriminate]. }
  pose proof (f_equal String.length H) as Hlen.
  unfold padded in *.
  destruct (Nat.leb_spec (String.length (digits n)) f) as [L1 | L1],
           (Nat.leb_spec (String.length (digits n')) f) as [L2 | L2].
  - destruct (Nat.lt_trichotomy (String.length (digits n)) (String.length (digits n')))
      as [Hlt | [E | Hlt]].
    + symmetry in H. apply zeros_app_inv in H; [| lia].
      exfalso. eapply (Hlz _ n' n); [| exact H]. lia.
    + rewrite E in H. now apply app_inv_head_string in H.
    + apply zeros_app_inv in H; [| lia].
      exfalso. eapply (Hlz _ n n'); [| exact H]. lia.
  - rewrite string_length_app, zeros_length in Hlen.
    exfalso. apply (Hlz (f + 1 - String.length (digits n))%nat n' n); [lia |].
    now rewrite H.
  - rewrite string_length_app, zeros_length in Hlen.
    exfalso. apply (Hlz (f + 1 - String.length (digits n'))%nat n n'); [lia |].
    now rewrite H.
  - exact H.
Qed.

Lemma fixed_digits_cut f n :
  f <> 0%nat ->
  exists a b, fixed_digits f n = (a ++ String "." b)%string
              /\ padded f n = (a ++ b)%string
              /\ String.length b = f /\ (1 <= String.length a)%nat.
Proof.
  intros Hf. unfold fixed_digits. apply Nat.eqb_neq in Hf. rewrite Hf.
  fold (padded f n). cbn zeta.
  destruct (padded_length f n) as [Hge Hlen]. rewrite <- Hlen.
  destruct (substring_cut (String.length (padded f n) - f) (padded f n) ltac:(lia))
    as (a & b & Hab & Hla & H0 & H1).
  assert (String.length b = f) as Hlb.
  { pose proof (f_equal String.length Hab) as E. rewrite string_length_app in E. lia. }
  exists a, b. rewrite H0. rewrite Hlb in H1. rewrite H1.
  repeat split; [exact Hab | exact Hlb | lia].
Qed.

Lemma fixed_digits_inj f n n' :
  f <> 0%nat -> 0 <= n -> 0 <= n' -> fixed_digits f n = fixed_digits f n' -> n = n'.
Proof.
  intros Hf Hn Hn' H.
  destruct (fixed_digits_cut f n Hf) as (a & b & E & P & Lb & La).
  destruct (fixed_digits_cut f n' Hf) as (a' & b' & E' & P' & Lb' & La').
  rewrite E, E' in H.
  assert (String.length a = String.length a') as Hl.
  { pose proof (f_equal String.length H) as X. rewrite 2!string_length_app in X. simpl in X. lia. }
  apply app_inj_length in H as [-> H]; [| exact Hl]. injection H as ->.
  apply (padded_inj f); try assumption. now rewrite P, P'.
Qed.

Lemma fixed_digits_head f n :
  f <> 0%nat -> exists c t, fixed_digits f n = String c t /\ is_digit c = true.
Proof.
  intros Hf. destruct (fixed_digits_cut f n Hf) as (a & b & E & P & Lb & La).
  pose proof (padded_all f n) as Hall. rewrite P, all_chars_app in Hall.
  destruct a as [| c a]; [simpl in La; lia |].
  exists c, (a ++ String "." b)%string. split; [exact E |].
  simpl in Hall. apply andb_true_iff in Hall as [Hall _].
  now apply andb_true_iff in Hall as [Hc _].
Qed.

Lemma fixed_digits_key_chars f n : f <> 0%nat -> all_chars key_char (fixed_digits f n) = true.
Proof.
  intros Hf. destruct (fixed_digits_cut f n Hf) as (a & b & E & P & Lb & La).
  pose proof (padded_all f n) as Hall. rewrite P, all_chars_app in Hall.
  apply andb_true_iff in Hall as [Ha Hb].
  assert (forall s, all_chars is_digit s = true -> all_chars key_char s = true) as Hw.
  { induction s as [| c s IH]; simpl; [auto |]. intros H.
    apply andb_true_iff in H as [Hc Hs]. unfold key_char. rewrite Hc. simpl. auto. }
  rewrite E, !all_chars_app. simpl. now rewrite (Hw a Ha), (Hw b Hb).
Qed.

Lemma toFixed_key_chars rt f x s n :
  f <> 0%nat -> toFixed_parts f x = Some (s, n) -> all_chars key_char (toFixed rt f x) = true.
Proof.
  intros Hf H. unfold toFixed. rewrite H. rewrite all_chars_app, fixed_digits_key_chars by exact Hf.
  now destruct s.
Qed.

Lemma toFixed_inj rt rt' f x y s1 n1 s2 n2 :
  f <> 0%nat ->
  toFixed_parts f x = Some (s1, n1) -> toFixed_parts f y = Some (s2, n2) ->
  toFixed rt f x = toFixed rt' f y -> s1 = s2 /\ n1 = n2.
Proof.
  intros Hf Hx Hy H. unfold toFixed in H. rewrite Hx, Hy in H.
  apply toFixed_parts_sign in Hx as [P1 _], Hy as [P2 _].
  destruct (fixed_digits_head f n1 Hf) as (c1 & t1 & E1 & D1).
  destruct (fixed_digits_head f n2 Hf) as (c2 & t2 & E2 & D2).
  destruct s1, s2; simpl in H.
  - injection H as H. split; [reflexivity |]. now apply (fixed_digits_inj f).
  - rewrite E2 in H. injection H as <- _. discriminate D2.
  - rewrite E1 in H. injection H as -> _. discriminate D1.
  - split; [reflexivity |]. now apply (fixed_digits_inj f).
Qed.

Lemma split_at_underscore a a' r r' :
  all_chars key_char a = true -> all_chars key_char a' = true ->
  (a ++ String "_" r = a' ++ String "_" r')%string -> a = a' /\ r = r'.
Proof.
  revert a'. induction a as [| c a IH]; intros [| c' a'] Ha Ha' H; simpl in *.
  - injection H as ->. auto.
  - injection H as <- _. discriminate Ha'.
  - injection H as -> _. discriminate Ha.
  - injection H as -> H. apply andb_true_iff in Ha as [_ Ha], Ha' as [_ Ha'].
    destruct (IH a' Ha Ha' H) as [-> ->]. auto.
Qed.

Lemma digits2_pos_bound m : Z.pos m < 2 ^ Z.pos (digits2_pos m).
Proof.
  induction m as [m IH | m IH |]; simpl; try lia.
  - rewrite Pos2Z.inj_succ, Z.pow_succ_r by lia. lia.
  - rewrite Pos2Z.inj_succ, Z.pow_succ_r by lia. lia.
Qed.

Lemma valid_mantissa s m e :
  valid_binary (S754_finite s m e) = true -> Z.pos m < 2 ^ 53.
Proof.
  unfold valid_binary, bounded, canonical_mantissa, fexp. intros H.
  apply andb_true_iff in H as [H _]. apply Z.eqb_eq in H.
  assert (Z.pos (digits2_pos m) <= 53) by (unfold prec in *; lia).
  pose proof (digits2_pos_bound m).
  assert (2 ^ Z.pos (digits2_pos m) <= 2 ^ 53) by (apply Z.pow_le_mono_r; lia).
  lia.
Qed.

(** A number between a negative and a positive finite bound is one [toFixed]
    rounds: it is finite and far below [10^21]. *)
Lemma in_range_parts f lo hi x ml el mh eh :
  Prim2SF lo = S754_finite true ml el -> Prim2SF hi = S754_finite false mh eh ->
  el <= 0 -> eh <= 0 -> Z.pos ml < 10 ^ 21 -> Z.pos mh < 10 ^ 21 ->
  in_range lo hi x = true ->
  exists s n, toFixed_parts f x = Some (s, n).
Proof.
  intros Hlo Hhi Hel Heh Hml Hmh H. unfold in_range in H.
  apply andb_true_iff in H as [H1 H2].
  rewrite leb_spec in H1, H2. rewrite Hlo in H1. rewrite Hhi in H2.
  pose proof (Prim2SF_valid x) as Hv.
  unfold toFixed_parts. destruct (Prim2SF x) as [sx | sx | | sx m e] eqn:E.
  - eauto.
  - destruct sx; discriminate.
  - discriminate.
  - apply valid_mantissa in Hv.
    assert (Hsmall : e <= 0 /\ (e < 0 \/ Z.pos m < 10 ^ 21)).
    { destruct sx.
      - unfold SFleb, SFcompare in H1.
        destruct (Z.compare_spec el e) as [Heq | Hlt | Hgt]; try discriminate; [| lia].
        subst e. split; [lia |]. right.
        destruct (Pos.compare_cont Eq ml m) eqn:C; try discriminate.
        + change (Pos.compare ml m = Eq) in C. apply Pos.compare_eq in C. lia.
        + change (Pos.compare ml m = Gt) in C. apply Pos.compare_gt_iff in C. lia.
      - unfold SFleb, SFcompare in H2.
        destruct (Z.compare_spec e eh) as [Heq | Hlt | Hgt]; try discriminate; [| lia].
        subst e. split; [lia |]. right.
        destruct (Pos.compare_cont Eq m mh) eqn:C; try discriminate.
        + change (Pos.compare m mh = Eq) in C. apply Pos.compare_eq in C. lia.
        + change (Pos.compare m mh = Lt) in C. apply Pos.compare_lt_iff in C. lia. }
    destruct Hsmall as [He Hm].
    rewrite Z.max_l by lia. rewrite Z.max_r by lia. rewrite Z.pow_0_r, Z.mul_1_r.
    assert (0 < 2 ^ (- e)) by (apply Z.pow_pos_nonneg; lia).
    destruct (Z.leb_spec (10 ^ 21 * 2 ^ (- e)) (Z.pos m)) as [Hbig | _]; [| eauto].
    exfalso. destruct Hm as [Hm | Hm].
    + assert (2 ^ 1 <= 2 ^ (- e)) by (apply Z.pow_le_mono_r; lia).
      assert (2 ^ 53 < 10 ^ 21) by (vm_compute; reflexivity). nia.
    + nia.
Qed.

Lemma schema_parts f (b : BoundingBox) :
  boundsSchema b = true ->
  (exists s n, toFixed_parts f (north b) = Some (s, n))
  /\ (exists s n, toFixed_parts f (south b) = Some (s, n))
  /\ (exists s n, toFixed_parts f (east b) = Some (s, n))
  /\ (exists s n, toFixed_parts f (west b) = Some (s, n)).
Proof.
  unfold boundsSchema. intros H.
  apply andb_true_iff in H as [H Hw]. apply andb_true_iff in H as [H He].
  apply andb_true_iff in H as [Hn Hs].
  repeat split;
    (eapply (in_range_parts f); [ | | | | | | eassumption];
     [vm_compute; reflexivity | vm_compute; reflexivity | lia | lia
     | vm_compute; reflexivity | vm_compute; reflexivity]).
Qed.

(** For requests that pass the bounds schema, two cache keys are equal
    exactly when [toFixed(4)] gives the same sign and the same rounded
    magnitude on each of the four edges: viewports that round differently
    never share a cache entry.  On such requests the key does not depend
    on the engine's [Number::toString]. *)
Theorem cacheKey_exact rt rt' (B1 B2 : BoundingBox) :
  boundsSchema B1 = true -> boundsSchema B2 = true ->
  (cacheKey rt B1 = cacheKey rt' B2
   <-> toFixed_parts 4 (north B1) = toFixed_parts 4 (north B2)
       /\ toFixed_parts 4 (south B1) = toFixed_parts 4 (south B2)
       /\ toFixed_parts 4 (east B1) = toFixed_parts 4 (east B2)
       /\ toFixed_parts 4 (west B1) = toFixed_parts 4 (west B2)).
Proof.
  intros H1 H2.
  destruct (schema_parts 4 B1 H1) as ((sn & nn & Pn) & (ss & ns & Ps) & (se & ne & Pe) & (sw & nw & Pw)).
  destruct (schema_parts 4 B2 H2) as ((sn' & nn' & Pn') & (ss' & ns' & Ps') & (se' & ne' & Pe') & (sw' & nw' & Pw')).
  split.
  - unfold cacheKey. intros H. apply app_inv_head_string in H.
    assert (K : forall rt0 x s n, toFixed_parts 4 x = Some (s, n) ->
                all_chars key_char (toFixed rt0 4 x) = true).
    { intros. eapply toFixed_key_chars; [lia | eassumption]. }
    change ("_" ++ ?x)%string with (String "_" x) in H.
    cbn [append] in H.
    apply split_at_underscore in H as [Hn H]; eauto.
    apply split_at_underscore in H as [Hs H]; eauto.
    apply split_at_underscore in H as [He Hw]; eauto.
    destruct (toFixed_inj rt rt' 4 _ _ _ _ _ _ ltac:(lia) Pn Pn' Hn) as [? ?]; subst.
    destruct (toFixed_inj rt rt' 4 _ _ _ _ _ _ ltac:(lia) Ps Ps' Hs) as [? ?]; subst.
    destruct (toFixed_inj rt rt' 4 _ _ _ _ _ _ ltac:(lia) Pe Pe' He) as [? ?]; subst.
    destruct (toFixed_inj rt rt' 4 _ _ _ _ _ _ ltac:(lia) Pw Pw' Hw) as [? ?]; subst.
    now rewrite Pn, Pn', Ps, Ps', Pe, Pe', Pw, Pw'.
  - intros (En & Es & Ee & Ew). unfold cacheKey, toFixed.
    rewrite <- En, <- Es, <- Ee, <- Ew. now rewrite Pn, Ps, Pe, Pw.
Qed.

End KeyProperties.

Lemma cacheKey_exact_witness :
  boundsSchema london = true /\ boundsSchema london_nudged = true
  /\ north london <> north london_nudged
  /\ cacheKey sample_runtime london = cacheKey sample_runtime london_nudged.
Proof.
  split; [reflexivity |]. split; [reflexivity |]. split.
  - vm_compute. intros H.
    assert (Prim2SF 51.5%float = Prim2SF 0x1.9c00008p+5%float) as H' by (rewrite H at 1; reflexivity).
    vm_compute in H'. discriminate H'.
  - apply (cacheKey_exact sample_runtime sample_runtime london london_nudged);
      [reflexivity | reflexivity |]. repeat split.
Defined.

(** * The order of the landmark list *)

Section ListOrder.

Import Wikipedia Routes.

Context (rt : Runtime) (w : World).

(** The callback keeps every field of the landmark but description and
    thumbnail. *)
Lemma with_details_keeps (l : Landmark) st :
  exists o st',
    with_details w l st = (inr o, st')
    /\ pageid o = pageid l /\ title o = title l /\ lat o = lat l /\ lon o = lon l
    /\ distance o = distance l.
Proof.
  unfold with_details, try_catch, mbind, M_bind, mret, M_ret.
  destruct (fetchLandmarkDetails w (pageid l) st) as [[err | details] st'];
    eexists _, _; (split; [reflexivity |]); simpl; auto.
Qed.

Lemma Promise_all_keeps ls st out st' :
  Promise_all (with_details w) ls st = (inr out, st') ->
  map pageid out = map pageid ls /\ map title out = map title ls
  /\ map lat out = map lat ls /\ map lon out = map lon ls
  /\ map distance out = map distance ls.
Proof.
  revert st out. induction ls as [| l rest IH]; intros st out.
  - simpl. unfold mret, M_ret. by intros [= <- <-].
  - simpl. unfold mbind, M_bind, mret, M_ret.
    destruct (with_details_keeps l st) as (o & st1 & -> & Hp & Ht & Hla & Hlo & Hd).
    destruct (Promise_all (with_details w) rest st1) as [[err | outs] st2] eqn:E; [done |].
    intros [= <- <-]. destruct (IH st1 outs E) as (I1 & I2 & I3 & I4 & I5).
    simpl. by rewrite Hp, Ht, Hla, Hlo, Hd, I1, I2, I3, I4, I5.
Qed.

(** On a miss the route does not re-sort: the list it builds has one
    entry per page of the geosearch answer, in the order of that answer,
    with its pageid, title, lat and lon, and with the distance in
    kilometres (the answer's metres divided by 1000).  The response is
    that list with status 200, except when the write of the result is
    refused, and only then: when the clock, read again by the store, has
    reached the expiry computed from the route's reading (15 minutes
    on), the response is the 500 error. *)
Theorem landmarks_response_order (q : BoundingBox) st stg results :
  boundsSchema q = true ->
  (north q <? south q)%float = false -> (east q <? west q)%float = false ->
  storage_getCachedData w (cacheKey rt q) st = (inr None, stg) ->
  let centerLat := ((north q + south q) / 2)%float in
  let centerLon := ((east q + west q) / 2)%float in
  let radius :=
    JsNumber.Math_min
      (JsNumber.Math_max (haversineDistance rt centerLat centerLon (north q) centerLon)
                         (haversineDistance rt centerLat centerLon centerLat (east q))
       * 1000)%float
      MAX_RADIUS in
  geosearch_api w (calls stg) centerLat centerLon radius = inr (Some results) ->
  exists out,
    map pageid out = map geo_pageid results
    /\ map title out = map geo_title results
    /\ map lat out = map geo_lat results
    /\ map lon out = map geo_lon results
    /\ map distance out = map (fun r => Some (geo_dist r / 1000)%float) results
    /\ (get_landmarks rt w q st).1
       = if clock w (ticks stg) + CACHE_EXPIRY_TIME <=? clock w (S (ticks stg))
         then json 500 (Message "Failed to fetch landmarks")
         else json 200 (LandmarkList out).
Proof.
  intros Hb Hn He Hmiss centerLat centerLon radius Hgeo.
  assert (Hfetch : exists ls,
    fetchLandmarks rt w (north q) (south q) (east q) (west q) stg
    = (inr ls, {| storage := storage stg;
                  calls := calls stg ++ [Geosearch centerLat centerLon radius 50];
                  ticks := ticks stg |})
    /\ map pageid ls = map geo_pageid results
    /\ map title ls = map geo_title results
    /\ map lat ls = map geo_lat results
    /\ map lon ls = map geo_lon results
    /\ map distance ls = map (fun r => Some (geo_dist r / 1000)%float) results).
  { unfold fetchLandmarks. rewrite Hn, He. cbn [orb].
    unfold mbind, M_bind, mret, M_ret, axios_get. cbn zeta.
    fold centerLat centerLon radius. rewrite Hgeo.
    eexists. split; [reflexivity |]. by rewrite !map_map. }
  destruct Hfetch as (ls & Hfetch & Hp & Ht & Hla & Hlo & Hd).
  remember (get_landmarks rt w q st) as r eqn:Hr.
  unfold get_landmarks, landmarks_try in Hr. rewrite Hb in Hr. cbn [negb] in Hr.
  unfold mbind at 1, M_bind at 1 in Hr. rewrite Hmiss in Hr.
  unfold mbind at 1, M_bind at 1 in Hr. rewrite Hfetch in Hr.
  unfold mbind at 1, M_bind at 1 in Hr.
  match type of Hr with
  | context [Promise_all (with_details w) ls ?s] =>
      pose proof (Promise_all_with_details_state w ls s) as Hst;
      destruct (Promise_all_with_details w ls s) as (out & st2 & Hrun & _);
      rewrite Hrun in Hr, Hst; cbn [snd] in Hst;
      apply Promise_all_keeps in Hrun as (Kp & Kt & Kla & Klo & Kd)
  end.
  assert (Hticks : ticks st2 = ticks stg) by (by rewrite Hst).
  unfold mbind, M_bind, mret, M_ret, Date_now, storage_cacheData,
    Storage.cacheData, Storage.le_now in Hr.
  cbn [fst snd calls storage ticks] in Hr. rewrite Hticks in Hr.
  exists out. repeat (split; [congruence |]).
  destruct (clock w (ticks stg) + CACHE_EXPIRY_TIME <=? clock w (S (ticks stg)));
    by subst r.
Qed.

End ListOrder.

Lemma landmarks_response_order_witness :
  boundsSchema london = true
  /\ exists out,
       (Routes.get_landmarks sample_runtime sample_world london st0).1
       = Routes.json 200 (Routes.LandmarkList out)
       /\ map pageid out = [1; 2; 3].
Proof.
  split; [reflexivity |].
  destruct (landmarks_response_order sample_runtime sample_world london st0 st0
              [geo_result 1 "Tower"; geo_result 2 "Bridge"; geo_result 3 "Stub"]
              eq_refl eq_refl eq_refl eq_refl eq_refl)
    as (out & Hp & _ & _ & _ & _ & H).
  exists out. split; [exact H | exact Hp].
Defined.

(** * What the landmark route can answer and ask *)

Section LandmarkRouteShape.

Import Wikipedia Routes.

Context (rt : Runtime) (w : World).

(** Whatever the request, the state and the upstream answers, the
    landmark route answers 200 or 500 (never 400 or 404), asks upstream
    for nothing but one geosearch and page details, and never asks for
    details before the geosearch. *)
Theorem landmarks_status_and_requests (q : BoundingBox) st :
  let r := get_landmarks rt w q st in
  (status r.1 = 200 \/ status r.1 = 500)
  /\ (issued st r.2 = []
      \/ exists centerLat centerLon radius pages,
           issued st r.2
           = Geosearch centerLat centerLon radius 50 :: map PageDetails pages).
Proof.
  cbn zeta. remember (get_landmarks rt w q st) as r eqn:Hr.
  unfold get_landmarks, landmarks_try in Hr.
  destruct (boundsSchema q); cbn [negb] in Hr.
  2:{ subst r. split; [by right |]. left. apply issued_app. by rewrite app_nil_r. }
  unfold mbind at 1, M_bind at 1 in Hr.
  assert (Hlookup : exists cached stg,
            storage_getCachedData w (cacheKey rt q) st = (inr cached, stg)
            /\ calls stg = calls st).
  { unfold storage_getCachedData.
    destruct (storage st !! cacheKey rt q); eexists _, _; split; reflexivity. }
  destruct Hlookup as (cached & stg & Hl & Hc). rewrite Hl in Hr.
  destruct cached as [cached |].
  { subst r. split; [by left |]. left. apply issued_app. cbn. by rewrite Hc, app_nil_r. }
  unfold mbind at 1, M_bind at 1 in Hr.
  unfold fetchLandmarks in Hr.
  destruct ((north q <? south q)%float || (east q <? west q)%float).
  { subst r. split; [by right |]. left. apply issued_app. cbn. by rewrite Hc, app_nil_r. }
  unfold mbind at 1, M_bind at 1, axios_get at 1 in Hr. cbn zeta in Hr.
  match type of Hr with
  | context [Geosearch ?a ?b ?c 50] => set (rad := c) in *; set (cLat := a) in *;
                                        set (cLon := b) in *
  end.
  assert (Hone : forall (x : HttpResponse) (s' : ServerState),
            calls s' = calls stg ++ [Geosearch cLat cLon rad 50] ->
            issued st (x, s').2 = []
            \/ exists centerLat centerLon radius pages,
                 issued st (x, s').2
                 = Geosearch centerLat centerLon radius 50 :: map PageDetails pages).
  { intros x s' Hs. right. exists cLat, cLon, rad, []. apply issued_app.
    cbn. by rewrite Hs, Hc. }
  destruct (geosearch_api w (calls stg) cLat cLon rad) as [err | data].
  { subst r. split; [by right |]. by apply Hone. }
  assert (Hrest : forall ls (r' : HttpResponse * ServerState),
    r' = match (Promise_all (with_details w) ls ≫=
                (fun landmarksWithDetails =>
                   Date_now w ≫= fun now =>
                   storage_cacheData w (cacheKey rt q) landmarksWithDetails
                     (now + CACHE_EXPIRY_TIME) ≫= fun _ =>
                   mret (json 200 (LandmarkList landmarksWithDetails))))
               {| storage := storage stg;
                  calls := calls stg ++ [Geosearch cLat cLon rad 50];
                  ticks := ticks stg |} with
         | (inr res, st') => (res, st')
         | (inl _, st') => (json 500 (Message "Failed to fetch landmarks"), st')
         end ->
    (status r'.1 = 200 \/ status r'.1 = 500)
    /\ (issued st r'.2 = []
        \/ exists centerLat centerLon radius pages,
             issued st r'.2
             = Geosearch centerLat centerLon radius 50 :: map PageDetails pages)).
  { intros ls r' Hr'. unfold mbind at 1, M_bind at 1 in Hr'.
    pose proof (Promise_all_with_details_state w ls
      {| storage := storage stg;
         calls := calls stg ++ [Geosearch cLat cLon rad 50];
         ticks := ticks stg |}) as Hst.
    destruct (Promise_all_with_details w ls
      {| storage := storage stg;
         calls := calls stg ++ [Geosearch cLat cLon rad 50];
         ticks := ticks stg |}) as (out & st2 & Hrun & _).
    rewrite Hrun in Hst, Hr'. cbn [snd] in Hst.
    unfold mbind, M_bind, mret, M_ret, Date_now, storage_cacheData in Hr'.
    cbn [fst snd calls storage ticks] in Hr'.
    assert (Hcalls : calls st2 = calls st ++ Geosearch cLat cLon rad 50
                                   :: map PageDetails (map pageid ls)).
    { rewrite Hst. cbn [calls]. rewrite Hc, <- app_assoc. cbn [app].
      by rewrite map_map. }
    destruct (Storage.cacheData _ _ _ _ _).1; subst r'; cbn [fst snd status json];
      (split; [by auto |]); right; exists cLat, cLon, rad, (map pageid ls);
      by apply issued_app. }
  destruct data as [results |]; eapply Hrest; exact Hr.
Qed.

End LandmarkRouteShape.
